(** * Audit-log resolution of discord.js v11: a shallow embedding

    The development follows [src/structures/GuildAuditLogs.js]: the two
    classification functions [GuildAuditLogs.targetType] and
    [GuildAuditLogs.actionType], the entry constructor
    [GuildAuditLogsEntry] and the batch constructor [GuildAuditLogs].

    JavaScript values are modelled by the fragment the file touches:
    - [undefined] and [null] are kept apart wherever the source tells them
      apart, and merged into [None] where it only tests truthiness;
    - a [throw] is a value of the [Result] type, naming the site;
    - [Map]/[Collection] objects read only by key are [gmap]s, the entry
      collection, whose iteration order is observable, is an insertion
      ordered association list with the update-in-place rule of [Map.set];
    - the one piece of mutable shared state, the client's user cache, is
      threaded explicitly through the batch constructor. *)

From Stdlib Require Import ZArith Ascii String List Bool Lia.
From stdpp Require Import base option list strings gmap fin_maps.

Set Warnings "-register-all,-clear-no-such-hyp".
Local Open Scope string_scope.
Local Open Scope Z_scope.

(** ** JavaScript values *)

Module Js.

(** JSON-like values carried by the payloads. Numbers are the integers
    (the feed carries bit fields, counts and durations there). [VGuild]
    stands for a reference to the guild object itself, which the source
    stores in the invite payload. *)
Inductive Val : Type :=
  | VUndefined
  | VNull
  | VBool (b : bool)
  | VNum (z : Z)
  | VStr (s : string)
  | VArr (items : list Val)
  | VObj (fields : list (string * Val))
  | VGuild (gid : string).

(** [ToBoolean]: what [||], [?:] and [if] look at. *)
Definition truthy (v : Val) : bool :=
  match v with
  | VUndefined | VNull => false
  | VBool b => b
  | VNum z => negb (z =? 0)
  | VStr s => negb (String.eqb s "")
  | VArr _ | VObj _ | VGuild _ => true
  end.

(** [a || b]. *)
Definition or (a b : Val) : Val := if truthy a then a else b.

(** An optional string property: [None] is [undefined] (or [null]), which
    the source never distinguishes for ids. *)
Definition str_truthy (o : option string) : bool :=
  match o with
  | None => false
  | Some s => negb (String.eqb s "")
  end.

Definition of_str (o : option string) : Val :=
  match o with
  | None => VUndefined
  | Some s => VStr s
  end.

(** The result of [Number(x)]. [Literal s] is the value ECMAScript's
    StringToNumber gives to a string [s] that is not a short run of
    decimal digits; it is left unevaluated. *)
Inductive Number : Type :=
  | NaN
  | Int (z : Z)
  | Literal (s : string).

Definition digit (a : ascii) : option Z :=
  let n := Z.of_nat (nat_of_ascii a) in
  if (48 <=? n) && (n <=? 57) then Some (n - 48) else None.

Fixpoint digits (acc : Z) (s : string) : option Z :=
  match s with
  | EmptyString => Some acc
  | String a rest =>
      match digit a with
      | Some d => digits (10 * acc + d) rest
      | None => None
      end
  end.

(** Integers up to 2^53 are exact doubles. *)
Definition StringToNumber (s : string) : Number :=
  if String.eqb s "" then Int 0
  else match digits 0 s with
       | Some z => if z <=? 2 ^ 53 then Int z else Literal s
       | None => Literal s
       end.

(** [Number(x)] for an optional string property. *)
Definition ToNumber (o : option string) : Number :=
  match o with
  | None => NaN
  | Some s => StringToNumber s
  end.

(** [String.prototype.toLowerCase] on ASCII. *)
Definition lower (a : ascii) : ascii :=
  let n := nat_of_ascii a in
  if (Nat.leb 65 n) && (Nat.leb n 90) then ascii_of_nat (n + 32) else a.

Fixpoint toLowerCase (s : string) : string :=
  match s with
  | EmptyString => EmptyString
  | String a rest => String (lower a) (toLowerCase rest)
  end.

(** Exceptions, by the site that raises them. *)
Inductive Error : Type :=
  | TypeError_property_of_undefined (prop : string)
  | TypeError_property_of_null (prop : string)
  | TypeError_set_property_of_null (prop : string).

Inductive Result (A : Type) : Type :=
  | Ok (a : A)
  | Throw (e : Error).
Arguments Ok {A} a.
Arguments Throw {A} e.

#[global] Instance Result_ret : MRet Result := fun A a => Ok a.

#[global] Instance Result_bind : MBind Result := fun A B k r =>
  match r with
  | Ok a => k a
  | Throw e => Throw e
  end.

End Js.

(** A plain object used as a record of properties. *)
Abbreviation Object := (gmap string Js.Val).

(** ** Targets and actions *)

(** [Targets]: the key mirror. *)
Inductive Target : Type :=
  | ALL | GUILD | CHANNEL | USER | ROLE | INVITE | WEBHOOK | EMOJI
  | MESSAGE | INTEGRATION | UNKNOWN.

#[global] Instance Target_eq_dec : EqDecision Target.
Proof. solve_decision. Defined.

(** The string a key of [Targets] is mirrored to. *)
Definition Target_string (t : Target) : string :=
  match t with
  | ALL => "ALL" | GUILD => "GUILD" | CHANNEL => "CHANNEL" | USER => "USER"
  | ROLE => "ROLE" | INVITE => "INVITE" | WEBHOOK => "WEBHOOK"
  | EMOJI => "EMOJI" | MESSAGE => "MESSAGE" | INTEGRATION => "INTEGRATION"
  | UNKNOWN => "UNKNOWN"
  end.

(** An [AuditLogAction] as the feed sends it: an integer or [null]. *)
Abbreviation AuditLogAction := (option Z).

Module Actions.
Definition ALL : AuditLogAction := None.
Definition GUILD_UPDATE : AuditLogAction := Some 1.
Definition CHANNEL_CREATE : AuditLogAction := Some 10.
Definition CHANNEL_UPDATE : AuditLogAction := Some 11.
Definition CHANNEL_DELETE : AuditLogAction := Some 12.
Definition CHANNEL_OVERWRITE_CREATE : AuditLogAction := Some 13.
Definition CHANNEL_OVERWRITE_UPDATE : AuditLogAction := Some 14.
Definition CHANNEL_OVERWRITE_DELETE : AuditLogAction := Some 15.
Definition MEMBER_KICK : AuditLogAction := Some 20.
Definition MEMBER_PRUNE : AuditLogAction := Some 21.
Definition MEMBER_BAN_ADD : AuditLogAction := Some 22.
Definition MEMBER_BAN_REMOVE : AuditLogAction := Some 23.
Definition MEMBER_UPDATE : AuditLogAction := Some 24.
Definition MEMBER_ROLE_UPDATE : AuditLogAction := Some 25.
Definition MEMBER_MOVE : AuditLogAction := Some 26.
Definition MEMBER_DISCONNECT : AuditLogAction := Some 27.
Definition BOT_ADD : AuditLogAction := Some 28.
Definition ROLE_CREATE : AuditLogAction := Some 30.
Definition ROLE_UPDATE : AuditLogAction := Some 31.
Definition ROLE_DELETE : AuditLogAction := Some 32.
Definition INVITE_CREATE : AuditLogAction := Some 40.
Definition INVITE_UPDATE : AuditLogAction := Some 41.
Definition INVITE_DELETE : AuditLogAction := Some 42.
Definition WEBHOOK_CREATE : AuditLogAction := Some 50.
Definition WEBHOOK_UPDATE : AuditLogAction := Some 51.
Definition WEBHOOK_DELETE : AuditLogAction := Some 52.
Definition EMOJI_CREATE : AuditLogAction := Some 60.
Definition EMOJI_UPDATE : AuditLogAction := Some 61.
Definition EMOJI_DELETE : AuditLogAction := Some 62.
Definition MESSAGE_DELETE : AuditLogAction := Some 72.
Definition MESSAGE_BULK_DELETE : AuditLogAction := Some 73.
Definition MESSAGE_PIN : AuditLogAction := Some 74.
Definition MESSAGE_UNPIN : AuditLogAction := Some 75.
Definition INTEGRATION_CREATE : AuditLogAction := Some 80.
Definition INTEGRATION_UPDATE : AuditLogAction := Some 81.
Definition INTEGRATION_DELETE : AuditLogAction := Some 82.

(** The object literal, in key order ([Object.keys] walks it so). *)
Definition table : list (string * AuditLogAction) :=
  [ ("ALL", ALL);
    ("GUILD_UPDATE", GUILD_UPDATE);
    ("CHANNEL_CREATE", CHANNEL_CREATE);
    ("CHANNEL_UPDATE", CHANNEL_UPDATE);
    ("CHANNEL_DELETE", CHANNEL_DELETE);
    ("CHANNEL_OVERWRITE_CREATE", CHANNEL_OVERWRITE_CREATE);
    ("CHANNEL_OVERWRITE_UPDATE", CHANNEL_OVERWRITE_UPDATE);
    ("CHANNEL_OVERWRITE_DELETE", CHANNEL_OVERWRITE_DELETE);
    ("MEMBER_KICK", MEMBER_KICK);
    ("MEMBER_PRUNE", MEMBER_PRUNE);
    ("MEMBER_BAN_ADD", MEMBER_BAN_ADD);
    ("MEMBER_BAN_REMOVE", MEMBER_BAN_REMOVE);
    ("MEMBER_UPDATE", MEMBER_UPDATE);
    ("MEMBER_ROLE_UPDATE", MEMBER_ROLE_UPDATE);
    ("MEMBER_MOVE", MEMBER_MOVE);
    ("MEMBER_DISCONNECT", MEMBER_DISCONNECT);
    ("BOT_ADD", BOT_ADD);
    ("ROLE_CREATE", ROLE_CREATE);
    ("ROLE_UPDATE", ROLE_UPDATE);
    ("ROLE_DELETE", ROLE_DELETE);
    ("INVITE_CREATE", INVITE_CREATE);
    ("INVITE_UPDATE", INVITE_UPDATE);
    ("INVITE_DELETE", INVITE_DELETE);
    ("WEBHOOK_CREATE", WEBHOOK_CREATE);
    ("WEBHOOK_UPDATE", WEBHOOK_UPDATE);
    ("WEBHOOK_DELETE", WEBHOOK_DELETE);
    ("EMOJI_CREATE", EMOJI_CREATE);
    ("EMOJI_UPDATE", EMOJI_UPDATE);
    ("EMOJI_DELETE", EMOJI_DELETE);
    ("MESSAGE_DELETE", MESSAGE_DELETE);
    ("MESSAGE_BULK_DELETE", MESSAGE_BULK_DELETE);
    ("MESSAGE_PIN", MESSAGE_PIN);
    ("MESSAGE_UNPIN", MESSAGE_UNPIN);
    ("INTEGRATION_CREATE", INTEGRATION_CREATE);
    ("INTEGRATION_UPDATE", INTEGRATION_UPDATE);
    ("INTEGRATION_DELETE", INTEGRATION_DELETE) ].
End Actions.

(** [a === b] on action codes. *)
Definition action_eqb (a b : AuditLogAction) : bool := bool_decide (a = b).

(** [Array.prototype.includes]. *)
Definition includes (l : list AuditLogAction) (a : AuditLogAction) : bool :=
  existsb (action_eqb a) l.

(** [target < n]: the relational comparison converts [null] to 0. *)
Definition lt (target : AuditLogAction) (n : Z) : bool :=
  match target with
  | None => 0 <? n
  | Some t => t <? n
  end.

Inductive ActionType : Type := CREATE | DELETE | UPDATE | ALL_ACTIONS.

#[global] Instance ActionType_eq_dec : EqDecision ActionType.
Proof. solve_decision. Defined.

Module GuildAuditLogs.

(** [static targetType(target)]; the final [return null] is [None]. *)
Definition targetType (target : AuditLogAction) : option Target :=
  if lt target 10 then Some GUILD
  else if lt target 20 then Some CHANNEL
  else if lt target 30 then Some USER
  else if lt target 40 then Some ROLE
  else if lt target 50 then Some INVITE
  else if lt target 60 then Some WEBHOOK
  else if lt target 70 then Some EMOJI
  else if lt target 80 then Some MESSAGE
  else if lt target 90 then Some INTEGRATION
  else None.

Definition CREATE_actions : list AuditLogAction :=
  [ Actions.CHANNEL_CREATE; Actions.CHANNEL_OVERWRITE_CREATE;
    Actions.MEMBER_BAN_REMOVE; Actions.BOT_ADD; Actions.ROLE_CREATE;
    Actions.INVITE_CREATE; Actions.WEBHOOK_CREATE; Actions.EMOJI_CREATE;
    Actions.MESSAGE_PIN; Actions.INTEGRATION_CREATE ].

Definition DELETE_actions : list AuditLogAction :=
  [ Actions.CHANNEL_DELETE; Actions.CHANNEL_OVERWRITE_DELETE;
    Actions.MEMBER_KICK; Actions.MEMBER_PRUNE; Actions.MEMBER_BAN_ADD;
    Actions.MEMBER_DISCONNECT; Actions.ROLE_DELETE; Actions.INVITE_DELETE;
    Actions.WEBHOOK_DELETE; Actions.EMOJI_DELETE; Actions.MESSAGE_DELETE;
    Actions.MESSAGE_BULK_DELETE; Actions.MESSAGE_UNPIN;
    Actions.INTEGRATION_DELETE ].

Definition UPDATE_actions : list AuditLogAction :=
  [ Actions.GUILD_UPDATE; Actions.CHANNEL_UPDATE;
    Actions.CHANNEL_OVERWRITE_UPDATE; Actions.MEMBER_UPDATE;
    Actions.MEMBER_ROLE_UPDATE; Actions.MEMBER_MOVE; Actions.ROLE_UPDATE;
    Actions.INVITE_UPDATE; Actions.WEBHOOK_UPDATE; Actions.EMOJI_UPDATE;
    Actions.INTEGRATION_UPDATE ].

(** [static actionType(action)]; the string ['ALL'] is [ALL_ACTIONS]. *)
Definition actionType (action : AuditLogAction) : ActionType :=
  if includes CREATE_actions action then CREATE
  else if includes DELETE_actions action then DELETE
  else if includes UPDATE_actions action then UPDATE
  else ALL_ACTIONS.

End GuildAuditLogs.

(** ** Entities, caches and the guild context *)

Module Class.
Inductive t : Type :=
  | User | Guild | Channel | Member | Role | Emoji
  | Webhook | Integration | Invite.
End Class.

(** Modelled from the spec: the classes [Webhook], [Integration], [Invite]
    and [User] are outside src/ and are only invoked as constructors (§1);
    an entity is the class together with the payload, and the guild
    argument when one is passed, it was constructed with. Entities of the
    long-lived caches have the same shape. *)
Record Entity : Type := new {
  class : Class.t;
  data : Object;
  guild_arg : option string
}.

(** A cache read by key only. *)
Abbreviation Cache := (gmap string Entity).

(** [cache.get(key)]; [None] is [undefined]. No cache has an [undefined]
    key. *)
Definition get (cache : Cache) (key : option string) : option Entity :=
  match key with
  | None => None
  | Some k => cache !! k
  end.

Module Client.
Record t : Type := make {
  users : Cache;
  guilds : Cache;
  channels : Cache
}.
End Client.

Module Guild.
Record t : Type := make {
  id : string;
  channels : Cache;
  members : Cache;
  roles : Cache;
  emojis : Cache;
  client : Client.t
}.

(** [guild[name]] for the collections of a guild. *)
Definition prop (guild : t) (name : string) : option Cache :=
  if String.eqb name "channels" then Some (channels guild)
  else if String.eqb name "members" then Some (members guild)
  else if String.eqb name "roles" then Some (roles guild)
  else if String.eqb name "emojis" then Some (emojis guild)
  else None.

Definition with_users (guild : t) (users : Cache) : t :=
  make (id guild) (channels guild) (members guild) (roles guild)
       (emojis guild)
       (Client.make users (Client.guilds (client guild))
                    (Client.channels (client guild))).
End Guild.

(** ** Raw payloads *)

Module Raw.

Record Change : Type := mkChange {
  key : string;
  old_value : Js.Val;
  new_value : Js.Val
}.

(** One element of [audit_log_entries]. [changes] is an array when
    present; [options] is an object of string properties. *)
Record Entry : Type := mkEntry {
  action_type : AuditLogAction;
  reason : option string;
  user_id : option string;
  changes : option (list Change);
  id : string;
  target_id : option string;
  options : option (gmap string string)
}.

(** An element of [users], [webhooks] or [integrations]. *)
Record Payload : Type := mkPayload {
  payload_id : string;
  payload_fields : Object
}.

Definition object (p : Payload) : Object :=
  <["id" := Js.VStr (payload_id p)]> (payload_fields p).

Record Batch : Type := mkBatch {
  users : option (list Payload);
  webhooks : option (list Payload);
  integrations : option (list Payload);
  audit_log_entries : list Entry
}.

End Raw.

(** ** The entry collection *)

(** [util/Collection] is outside src/. A collection is a [Map] with
    utility methods: keys and values in insertion order. *)
Module Collection.

Definition t (V : Type) : Type := list (string * V).

Definition empty {V} : t V := [].

(** Modelled from the spec: [Collection.set], of [util/Collection], is
    missing from src/; §4.1 step 4 has insertion order preserved and a
    later entry with a colliding id overwriting the earlier one. As in the
    built-in [Map] the class extends, a key already present keeps its
    place and takes the new value; a new key goes last. *)
Fixpoint set {V} (k : string) (v : V) (m : t V) : t V :=
  match m with
  | [] => [(k, v)]
  | (k', v') :: rest =>
      if decide (k' = k) then (k', v) :: rest
      else (k', v') :: set k v rest
  end.

Fixpoint get {V} (k : string) (m : t V) : option V :=
  match m with
  | [] => None
  | (k', v') :: rest => if decide (k' = k) then Some v' else get k rest
  end.

Definition keyArray {V} (m : t V) : list string := m.*1.

Definition array {V} (m : t V) : list V := m.*2.

End Collection.

(** ** Resolved entries *)

(** What the source stores in [extra.channel], [extra] and [target]: an
    entity, a plain object, [null], or the [undefined] of a cache miss. *)
Inductive Reference : Type :=
  | Null
  | Undefined
  | Cached (e : Entity)
  | Plain (o : Object).

(** [null] or an object of one of the shapes of the [extra] switch. *)
Inductive Extra : Type :=
  | ExtraNull
  | ExtraPrune (removed days : Js.Number)
  | ExtraChannelCount (channel : Reference) (count : Js.Number)
  | ExtraChannelMessage (channel : Reference) (messageID : Js.Val)
  | ExtraCount (count : Js.Number)
  | ExtraOverwrite (holder : Reference).

Record AuditLogChange : Type := mkAuditLogChange {
  change_key : string;
  change_old : Js.Val;
  change_new : Js.Val
}.

Module Entry.
Record t : Type := make {
  targetType : option Target;
  actionType : ActionType;
  action : option string;
  reason : option string;
  executor : option Entity;
  changes : option (list AuditLogChange);
  id : string;
  extra : Extra;
  target : Reference
}.
End Entry.

Module Logs.
Record t : Type := make {
  webhooks : Cache;
  integrations : Cache;
  entries : Collection.t Entry.t
}.
End Logs.

(** [cache.get(key)] as a stored value. *)
Definition lookup_ref (cache : Cache) (key : option string) : Reference :=
  match get cache key with
  | Some e => Cached e
  | None => Undefined
  end.

(** [cache.get(key) || fallback]: an entity is an object, hence truthy. *)
Definition get_or (cache : Cache) (key : option string) (fallback : Object)
  : Reference :=
  match get cache key with
  | Some e => Cached e
  | None => Plain fallback
  end.

Module GuildAuditLogsEntry.

Import Js.

(** [c => ({ key: c.key, old: c.old_value, new: c.new_value })] *)
Definition normalize (c : Raw.Change) : AuditLogChange :=
  mkAuditLogChange (Raw.key c) (Raw.old_value c) (Raw.new_value c).

(** [data.changes ? data.changes.map(...) : null]; an array, empty or
    not, is truthy. *)
Definition changes_of (data : Raw.Entry) : option (list AuditLogChange) :=
  match Raw.changes data with
  | Some cs => Some (map normalize cs)
  | None => None
  end.

(** [Object.keys(Actions).find(k => Actions[k] === data.action_type)] *)
Definition action_of (data : Raw.Entry) : option string :=
  match List.find (fun kv => action_eqb (snd kv) (Raw.action_type data))
                  Actions.table with
  | Some kv => Some (fst kv)
  | None => None
  end.

(** [data.reason || null] *)
Definition reason_of (data : Raw.Entry) : option string :=
  if str_truthy (Raw.reason data) then Raw.reason data else None.

(** [data.options.name]; reading a property of [undefined] throws. *)
Definition option_prop (data : Raw.Entry) (name : string)
  : Result (option string) :=
  match Raw.options data with
  | Some o => Ok (o !! name)
  | None => Throw (TypeError_property_of_undefined name)
  end.

(** The [switch (data.action_type)] that fills [this.extra]. *)
Definition extra_of (guild : Guild.t) (data : Raw.Entry) : Result Extra :=
  let a := Raw.action_type data in
  if action_eqb a Actions.MEMBER_PRUNE then
    removed ← option_prop data "members_removed";
    days ← option_prop data "delete_member_days";
    Ok (ExtraPrune (ToNumber removed) (ToNumber days))
  else if action_eqb a Actions.MEMBER_MOVE
          || action_eqb a Actions.MESSAGE_DELETE
          || action_eqb a Actions.MESSAGE_BULK_DELETE then
    channel_id ← option_prop data "channel_id";
    count ← option_prop data "count";
    Ok (ExtraChannelCount
          (get_or (Guild.channels guild) channel_id
                  {[ "id" := of_str channel_id ]})
          (ToNumber count))
  else if action_eqb a Actions.MESSAGE_PIN
          || action_eqb a Actions.MESSAGE_UNPIN then
    channel_id ← option_prop data "channel_id";
    message_id ← option_prop data "message_id";
    Ok (ExtraChannelMessage
          (get_or (Client.channels (Guild.client guild)) channel_id
                  {[ "id" := of_str channel_id ]})
          (of_str message_id))
  else if action_eqb a Actions.MEMBER_DISCONNECT then
    count ← option_prop data "count";
    Ok (ExtraCount (ToNumber count))
  else if action_eqb a Actions.CHANNEL_OVERWRITE_CREATE
          || action_eqb a Actions.CHANNEL_OVERWRITE_UPDATE
          || action_eqb a Actions.CHANNEL_OVERWRITE_DELETE then
    type ← option_prop data "type";
    if bool_decide (type = Some "member") then
      id ← option_prop data "id";
      Ok (ExtraOverwrite
            (get_or (Guild.members guild) id
                    (<["type" := VStr "member"]> {[ "id" := of_str id ]})))
    else if bool_decide (type = Some "role") then
      id ← option_prop data "id";
      role_name ← option_prop data "role_name";
      Ok (ExtraOverwrite
            (get_or (Guild.roles guild) id
                    (<["type" := VStr "role"]>
                       (<["name" := of_str role_name]>
                          {[ "id" := of_str id ]}))))
    else Ok ExtraNull
  else Ok ExtraNull.

(** What the object the changes are reduced into inherits from: the
    [Object.prototype] of an object literal, nothing, or a value of the
    payload that a change keyed [__proto__] installed. *)
Inductive Prototype : Type :=
  | ObjectPrototype
  | NullPrototype
  | ValuePrototype (v : Val).

(** An object as opposed to a primitive or [null]. *)
Definition is_object (v : Val) : bool :=
  match v with
  | VArr _ | VObj _ | VGuild _ => true
  | _ => false
  end.

(** [fields.name] for an object parsed from JSON, where the last of
    several properties of one name stands; [undefined] without one. *)
Definition json_get (fields : list (string * Val)) (name : string) : Val :=
  match last (filter (fun kv => kv.1 = name) fields) with
  | Some kv => kv.2
  | None => VUndefined
  end.

(** Whether the property [__proto__] found along this prototype chain is
    the accessor of [Object.prototype]. A [null] prototype cuts the chain
    short of it, and a parsed object with a property of its own under that
    name hides it. *)
Definition inherits_accessor (proto : Prototype) : bool :=
  match proto with
  | ObjectPrototype => true
  | NullPrototype => false
  | ValuePrototype (VObj fields) =>
      negb (existsb (fun kv => String.eqb kv.1 "__proto__") fields)
  | ValuePrototype _ => true
  end.

(** [o[key] = v] on an object with the own properties [own]. Every key
    but [__proto__] becomes, or stays, an own property. [__proto__] does
    so only when it is one already or when the accessor is out of reach;
    otherwise the accessor stores no property: it makes an object or
    [null] the prototype and ignores a primitive. Change values are
    parsed JSON, whose properties are plain writable data. *)
Definition assign (state : Object * Prototype) (key : string) (v : Val)
  : Object * Prototype :=
  let '(own, proto) := state in
  if negb (String.eqb key "__proto__") then (<[key := v]> own, proto)
  else if bool_decide (is_Some (own !! key)) then (<[key := v]> own, proto)
  else if negb (inherits_accessor proto) then (<[key := v]> own, proto)
  else if is_object v then (own, ValuePrototype v)
  else match v with
       | VNull => (own, NullPrototype)
       | _ => (own, proto)
       end.

(** [(o, c) => { o[c.key] = c.new || c.old; return o; }] folded from the
    object literal [init]: the own properties and the prototype. *)
Definition flatten_state (cs : list AuditLogChange) (init : Object)
  : Object * Prototype :=
  foldl (fun state c =>
           assign state (change_key c) (Js.or (change_new c) (change_old c)))
        (init, ObjectPrototype) cs.

(** The own properties of the object the changes are reduced into; an
    entity constructed from the object is recorded with these. *)
Definition flatten (cs : list AuditLogChange) (init : Object) : Object :=
  (flatten_state cs init).1.

(** [this.changes.reduce(..., init)]: [this.changes] may be [null]. *)
Definition reduce (changes : option (list AuditLogChange)) (init : Object)
  : Result Object :=
  match changes with
  | Some cs => Ok (flatten cs init)
  | None => Throw (TypeError_property_of_null "reduce")
  end.

(** The same call, for a caller that goes on reading the object. *)
Definition reduce_state (changes : option (list AuditLogChange))
    (init : Object) : Result (Object * Prototype) :=
  match changes with
  | Some cs => Ok (flatten_state cs init)
  | None => Throw (TypeError_property_of_null "reduce")
  end.

(** [o.name]: the own property, else the one of a parsed object that is
    the prototype, else [undefined]. The name is not one that an array or
    a built-in prototype defines: the source reads [channel_id]. *)
Definition field (state : Object * Prototype) (name : string) : Val :=
  match state.1 !! name with
  | Some v => v
  | None =>
      match state.2 with
      | ValuePrototype (VObj fields) => json_get fields name
      | _ => VUndefined
      end
  end.

(** The chain of tests that fills [this.target], which starts as [null]. *)
Definition target_of (logs : Logs.t) (guild : Guild.t) (data : Raw.Entry)
    (targetType : option Target) (changes : option (list AuditLogChange))
  : Result Reference :=
  let target_id := Raw.target_id data in
  let client := Guild.client guild in
  if bool_decide (targetType = Some UNKNOWN) then
    _ ← reduce changes ∅;
    Throw (TypeError_set_property_of_null "id")
  else if bool_decide (targetType = Some USER) && str_truthy target_id then
    Ok (lookup_ref (Client.users client) target_id)
  else if bool_decide (targetType = Some GUILD) then
    Ok (lookup_ref (Client.guilds client) target_id)
  else if bool_decide (targetType = Some WEBHOOK) then
    match get (Logs.webhooks logs) target_id with
    | Some hook => Ok (Cached hook)
    | None =>
        o ← reduce changes
              (<["guild_id" := VStr (Guild.id guild)]>
                 {[ "id" := of_str target_id ]});
        Ok (Cached (new Class.Webhook o None))
    end
  else if bool_decide (targetType = Some INVITE) then
    changes ← reduce_state changes
                (<["guild" := VGuild (Guild.id guild)]>
                   {[ "id" := of_str target_id ]});
    Ok (Cached
          (new Class.Invite
               (<["channel" := VObj [("id", field changes "channel_id")]]>
                  changes.1)
               None))
  else if bool_decide (targetType = Some MESSAGE) then
    if action_eqb (Raw.action_type data) Actions.MESSAGE_BULK_DELETE then
      Ok (get_or (Guild.channels guild) target_id
                 {[ "id" := of_str target_id ]})
    else Ok (lookup_ref (Client.users client) target_id)
  else if bool_decide (targetType = Some INTEGRATION) then
    match get (Logs.integrations logs) target_id with
    | Some integration => Ok (Cached integration)
    | None =>
        o ← reduce changes {[ "id" := of_str target_id ]};
        Ok (Cached (new Class.Integration o (Some (Guild.id guild))))
    end
  else if str_truthy target_id then
    match targetType with
    | None => Throw (TypeError_property_of_null "toLowerCase")
    | Some t =>
        match Guild.prop guild (toLowerCase (Target_string t) ++ "s") with
        | Some cache =>
            Ok (get_or cache target_id {[ "id" := of_str target_id ]})
        | None => Throw (TypeError_property_of_undefined "get")
        end
    end
  else Ok Null.

(** [new GuildAuditLogsEntry(logs, guild, data)] *)
Definition constructor (logs : Logs.t) (guild : Guild.t) (data : Raw.Entry)
  : Result Entry.t :=
  let targetType := GuildAuditLogs.targetType (Raw.action_type data) in
  let actionType := GuildAuditLogs.actionType (Raw.action_type data) in
  let action := action_of data in
  let reason := reason_of data in
  let executor :=
    get (Client.users (Guild.client guild)) (Raw.user_id data) in
  let changes := changes_of data in
  let id := Raw.id data in
  extra ← extra_of guild data;
  target ← target_of logs guild data targetType changes;
  Ok (Entry.make targetType actionType action reason executor changes id
                 extra target).

End GuildAuditLogsEntry.

(** ** The batch constructor *)

(** Modelled from the spec: [ClientDataManager.newUser] is outside src/;
    §4.1 step 1 makes it an idempotent upsert into the client's user
    cache: an id already cached keeps its entity, a new id is bound to a
    newly constructed user. *)
Definition newUser (users : Cache) (user : Raw.Payload) : Cache :=
  match users !! Raw.payload_id user with
  | Some _ => users
  | None =>
      <[Raw.payload_id user := new Class.User (Raw.object user) None]> users
  end.

(** [for (const hook of data.webhooks) this.webhooks.set(hook.id, ...)],
    and the same loop for integrations, which passes the guild on. *)
Definition collect (class : Class.t) (guild_arg : option string)
    (payloads : option (list Raw.Payload)) : Cache :=
  match payloads with
  | Some ps =>
      foldl (fun cache p =>
               <[Raw.payload_id p := new class (Raw.object p) guild_arg]> cache)
            ∅ ps
  | None => ∅
  end.

(** [for (const item of data.audit_log_entries) { ... }]: [logs] is [this]
    with the entries set so far; a throwing entry aborts the loop. *)
Fixpoint for_entries (logs : Logs.t) (guild : Guild.t)
    (items : list Raw.Entry) : Js.Result Logs.t :=
  match items with
  | [] => Js.Ok logs
  | item :: rest =>
      entry ← GuildAuditLogsEntry.constructor logs guild item;
      for_entries
        (Logs.make (Logs.webhooks logs) (Logs.integrations logs)
                   (Collection.set (Entry.id entry) entry (Logs.entries logs)))
        guild rest
  end.

(** The [set] calls of the loop, once every entry is constructed. *)
Definition set_all (entries : Collection.t Entry.t) (es : list Entry.t)
  : Collection.t Entry.t :=
  foldl (fun m e => Collection.set (Entry.id e) e m) entries es.

(** The ids of a list in order of first occurrence. *)
Fixpoint distinct (ids : list string) : list string :=
  match ids with
  | [] => []
  | k :: rest => k :: filter (fun k' => k' <> k) (distinct rest)
  end.

(** [new GuildAuditLogs(guild, data)]. The guild comes back with the user
    cache as the constructor leaves it, also when an entry throws. *)
Definition new_GuildAuditLogs (guild : Guild.t) (data : Raw.Batch)
  : Guild.t * Js.Result Logs.t :=
  let guild :=
    match Raw.users data with
    | Some us =>
        Guild.with_users guild
          (foldl newUser (Client.users (Guild.client guild)) us)
    | None => guild
    end in
  let webhooks := collect Class.Webhook None (Raw.webhooks data) in
  let integrations :=
    collect Class.Integration (Some (Guild.id guild))
            (Raw.integrations data) in
  (guild,
   for_entries (Logs.make webhooks integrations Collection.empty) guild
               (Raw.audit_log_entries data)).

(** ** Timestamp accessors *)

Module Snowflake.
(** The object [Snowflake.deconstruct] returns; only [timestamp] is read. *)
Record Deconstructed : Type := make {
  timestamp : Js.Number
}.

(** The integer an id is written as, in decimal digits. *)
Definition integer (id : string) : option Z :=
  if String.eqb id "" then None else Js.digits 0 id.

(** Modelled from the spec: [Snowflake.deconstruct], of [util/Snowflake],
    is missing from src/. The glossary has a Snowflake as an integer
    identifier that embeds a creation timestamp in its high bits, decodable
    without external state, and §4.2 has the timestamp as a millisecond
    epoch derived from the id. How many low bits lie under the timestamp
    and which instant the milliseconds count from are constants of the
    scheme that the spec leaves open: [low_bits] and [epoch]. An id that
    is not written as an integer has no timestamp. *)
Definition deconstruct (low_bits epoch : Z) (id : string) : Deconstructed :=
  make (match integer id with
        | Some n => Js.Int (Z.shiftr n low_bits + epoch)
        | None => Js.NaN
        end).
End Snowflake.

(** [new Date(ms)] *)
Inductive Date : Type := Date_of (ms : Js.Number).

Section Timestamps.

(** [Snowflake.deconstruct], of [util/Snowflake], outside src/. *)
Variable deconstruct : string -> Snowflake.Deconstructed.

(** [get createdTimestamp()] *)
Definition createdTimestamp (entry : Entry.t) : Js.Number :=
  Snowflake.timestamp (deconstruct (Entry.id entry)).

(** [get createdAt()] *)
Definition createdAt (entry : Entry.t) : Date :=
  Date_of (createdTimestamp entry).

End Timestamps.

(** ** The fixed action-code table *)

(** The codes of the table of §6, as the specification lists them. *)
Definition known_codes : list Z :=
  [ 1; 10; 11; 12; 13; 14; 15; 20; 21; 22; 23; 24; 25; 26; 27; 28;
    30; 31; 32; 40; 41; 42; 50; 51; 52; 60; 61; 62; 72; 73; 74; 75;
    80; 81; 82 ].

(** The actions handled by a [case] of the [extra] switch. *)
Definition switch_cases : list AuditLogAction :=
  [ Actions.MEMBER_PRUNE; Actions.MEMBER_MOVE; Actions.MESSAGE_DELETE;
    Actions.MESSAGE_BULK_DELETE; Actions.MESSAGE_PIN; Actions.MESSAGE_UNPIN;
    Actions.MEMBER_DISCONNECT; Actions.CHANNEL_OVERWRITE_CREATE;
    Actions.CHANNEL_OVERWRITE_UPDATE; Actions.CHANNEL_OVERWRITE_DELETE ].

(** ** Sample inputs *)

Module Sample.

Definition channel_C1 : Entity :=
  new Class.Channel {[ "id" := Js.VStr "C1" ]} (Some "G1").

Definition client : Client.t := Client.make ∅ ∅ ∅.

(** A guild whose channel cache holds C1. *)
Definition guild : Guild.t :=
  Guild.make "G1" {[ "C1" := channel_C1 ]} ∅ ∅ ∅ client.

(** A batch with no webhook, no integration and no entry yet. *)
Definition logs : Logs.t := Logs.make ∅ ∅ Collection.empty.

(** A raw entry with nothing but an id, an executor and an action. *)
Definition bare (id : string) (action_type : AuditLogAction) : Raw.Entry :=
  Raw.mkEntry action_type None (Some "U1") None id None None.

Definition with_target (target_id : string) (data : Raw.Entry) : Raw.Entry :=
  Raw.mkEntry (Raw.action_type data) (Raw.reason data) (Raw.user_id data)
              (Raw.changes data) (Raw.id data) (Some target_id)
              (Raw.options data).

Definition with_changes (cs : list Raw.Change) (data : Raw.Entry)
  : Raw.Entry :=
  Raw.mkEntry (Raw.action_type data) (Raw.reason data) (Raw.user_id data)
              (Some cs) (Raw.id data) (Raw.target_id data)
              (Raw.options data).

Definition with_options (o : gmap string string) (data : Raw.Entry)
  : Raw.Entry :=
  Raw.mkEntry (Raw.action_type data) (Raw.reason data) (Raw.user_id data)
              (Raw.changes data) (Raw.id data) (Raw.target_id data)
              (Some o).

Definition with_reason (reason : string) (data : Raw.Entry) : Raw.Entry :=
  Raw.mkEntry (Raw.action_type data) (Some reason) (Raw.user_id data)
              (Raw.changes data) (Raw.id data) (Raw.target_id data)
              (Raw.options data).

(** A GUILD_UPDATE record whose change list is present and empty. *)
Definition empty_changes : Raw.Entry :=
  with_changes [] (bare "1" Actions.GUILD_UPDATE).





(** A GUILD_UPDATE record and the entry it resolves to in [guild]. *)
Definition update (id reason : string) : Raw.Entry :=
  with_reason reason (bare id Actions.GUILD_UPDATE).

Definition updated (id reason : string) : Entry.t :=
  Entry.make (Some GUILD) UPDATE (Some "GUILD_UPDATE") (Some reason) None
             None id ExtraNull Undefined.

(** Three records, the third with the id of the first. *)
Definition colliding : Raw.Batch :=
  Raw.mkBatch None None None
    [update "1" "a"; update "2" "b"; update "1" "c"].

(** Three records with distinct ids, not in increasing order. *)
Definition unordered : Raw.Batch :=
  Raw.mkBatch None None None
    [update "3" "a"; update "1" "b"; update "2" "c"].

End Sample.

(** ** The guild collection of a family *)

(** The cache the fallback of the target chain is meant to read for a
    family whose entities live in the guild. *)
Definition family_cache (guild : Guild.t) (t : Target) : option Cache :=
  match t with
  | CHANNEL => Some (Guild.channels guild)
  | ROLE => Some (Guild.roles guild)
  | EMOJI => Some (Guild.emojis guild)
  | _ => None
  end.

(** ** [src/util/Util.js] *)

Module Util.

(** What a method of [Util] throws: a [TypeError] of the engine or the
    [Error] the method constructs. *)
Inductive Thrown : Type :=
  | EngineError (e : Js.Error)
  | Error (message : string).

Inductive Result (A : Type) : Type :=
  | Ok (a : A)
  | Throw (e : Thrown).
Arguments Ok {A} a.
Arguments Throw {A} e.

(** [SplitOptions]; [None] is a property left [undefined]. *)
Record SplitOptions : Type := mkSplitOptions {
  maxLength : option Z;
  char : option string;
  prepend : option string;
  append : option string
}.

(** [s.split("")]: one string per code unit. *)
Fixpoint units (s : string) : list string :=
  match s with
  | EmptyString => []
  | String a rest => String a EmptyString :: units rest
  end.

(** [s.split(sep)] for a non-empty [sep], scanning left to right:
    [current] is the chunk being read, [skip] counts the code units of a
    matched separator still to pass over. *)
Fixpoint split_go (sep : string) (skip : nat) (current : string) (s : string)
  : list string :=
  match s with
  | EmptyString => [current]
  | String a rest =>
      match skip with
      | S k => split_go sep k current rest
      | O =>
          if String.prefix sep s
          then current :: split_go sep (String.length sep - 1) "" rest
          else split_go sep 0 (current ++ String a "") rest
      end
  end.

(** [String.prototype.split] with a string separator and no limit. *)
Definition split (sep s : string) : list string :=
  if String.eqb sep "" then units s else split_go sep 0 "" s.

(** One turn of the [for] loop. [msg] always indexes the last element of
    [messages]: the state is the messages before it and [messages[msg]]. *)
Definition split_step (maxLength : Z) (char prepend append : string)
    (state : list string * string) (chunk : string) : list string * string :=
  let '(closed, current) := state in
  let '(closed, current) :=
    if Z.of_nat (String.length current) + Z.of_nat (String.length chunk) + 1
       >? maxLength
    then ((closed ++ [(current ++ append)%string])%list, prepend)
    else (closed, current) in
  (closed,
   current
   ++ (if (0 <? String.length current)%nat && negb (String.eqb current prepend)
       then char else "")
   ++ chunk).

(** A string or an array of strings. *)
Inductive Split : Type :=
  | Text (text : string)
  | Messages (messages : list string).

(** [static splitMessage(text, options)] *)
Definition splitMessage (text : string) (options : option SplitOptions)
  : Result Split :=
  match options with
  | None => Throw (EngineError (Js.TypeError_property_of_undefined "maxLength"))
  | Some o =>
      let maxLength := default 1950 (maxLength o) in
      let char := default (String "010"%char "") (char o) in
      let prepend := default "" (prepend o) in
      let append := default "" (append o) in
      if Z.of_nat (String.length text) <=? maxLength then Ok (Text text)
      else
        let splitText := split char text in
        if existsb (fun chunk => Z.of_nat (String.length chunk) >? maxLength)
                   splitText
        then Throw (Error
               "Message exceeds the max length and contains no split characters.")
        else
          let '(closed, current) :=
            foldl (split_step maxLength char prepend append) ([], "")
                  splitText in
          Ok (Messages (closed ++ [current])%list)
  end.

(** The info object of [makeError] and [makePlainError]; [None] is a
    property left [undefined]. *)
Record ErrorInfo : Type := mkErrorInfo {
  info_name : option string;
  info_message : option string;
  info_stack : option string
}.

(** An [Error] instance, by what reading [name], [message] and [stack]
    gives. *)
Record ErrorObject : Type := mkErrorObject {
  err_name : option string;
  err_message : string;
  err_stack : option string
}.

(** [static makeError(obj)]. [new Error(obj.message)] sets no own
    [message] for [undefined], and the one of the prototype, the empty
    string, is read instead; [name] and [stack] are assigned over what the
    constructor set. *)
Definition makeError (obj : ErrorInfo) : ErrorObject :=
  mkErrorObject (info_name obj) (default "" (info_message obj))
                (info_stack obj).

(** [static makePlainError(err)] *)
Definition makePlainError (err : ErrorObject) : ErrorInfo :=
  mkErrorInfo (err_name err) (Some (err_message err)) (err_stack err).

Section Arrays.

(** Array elements compared by [===] and by [Set] membership: a type with
    decidable equality. [undefined] is what reading a missing index
    gives. *)
Context {A : Type} `{EqDecision A} (undefined : A).

(** [static arraysEqual(a, b)]. The two arrays are given by their
    contents; the shortcut [a === b] for one and the same array returns
    what the rest of the body returns on equal contents. *)
Definition arraysEqual (a b : list A) : bool :=
  if negb (length a =? length b)%nat then false
  else forallb (fun e => bool_decide (e ∈ b)) a
       && forallb (fun e => bool_decide (e ∈ a)) b.

(** [array.indexOf(element)] *)
Fixpoint indexOf (array : list A) (element : A) : Z :=
  match array with
  | [] => -1
  | x :: rest =>
      if decide (x = element) then 0
      else let i := indexOf rest element in
           if i <? 0 then -1 else i + 1
  end.

(** The position [splice] starts from: a negative [start] counts from the
    end, and both ends clamp. *)
Definition relative_start (len : nat) (start : Z) : nat :=
  if start <? 0 then Z.to_nat (Z.max (Z.of_nat len + start) 0)
  else Z.to_nat (Z.min start (Z.of_nat len)).

(** [array.splice(start, 1)]: the removed elements and what is left. *)
Definition splice_delete (start : Z) (array : list A) : list A * list A :=
  let k := relative_start (length array) start in
  (take 1 (drop k array), (take k array ++ drop (S k) array)%list).

(** [array.splice(start, 0, item)] *)
Definition splice_insert (start : Z) (item : A) (array : list A) : list A :=
  let k := relative_start (length array) start in
  (take k array ++ item :: drop k array)%list.

(** [static moveElementInArray(array, element, newIndex, offset)]: the
    array as the call leaves it and the returned index. [offset] is a
    boolean or left out. *)
Definition moveElementInArray (array : list A) (element : A) (newIndex : Z)
    (offset : option bool) : list A * Z :=
  let offset := default false offset in
  let index := indexOf array element in
  let newIndex := (if offset then index else 0) + newIndex in
  let array :=
    if (-1 <? newIndex) && (newIndex <? Z.of_nat (length array)) then
      let '(removed, rest) := splice_delete index array in
      let removedElement := default undefined (head removed) in
      splice_insert newIndex removedElement rest
    else array in
  (array, indexOf array element).

End Arrays.

End Util.

(** * Classification *)


Lemma includes_elem_of (l : list AuditLogAction) (a : AuditLogAction) :
  includes l a = true <-> a ∈ l.
Proof.
  unfold includes. rewrite existsb_exists. split.
  - intros (b & Hin & Heq). apply bool_decide_eq_true in Heq. subst b.
    by apply list_elem_of_In.
  - intros Hin. exists a. split; [by apply list_elem_of_In |].
    by apply bool_decide_eq_true.
Qed.

Lemma includes_not_elem_of (l : list AuditLogAction) (a : AuditLogAction) :
  includes l a = false <-> a ∉ l.
Proof.
  rewrite <- includes_elem_of. destruct (includes l a); split; congruence.
Qed.

(** Membership in a list literal, one element at a time. *)
Ltac by_cases_on H :=
  repeat (apply elem_of_cons in H as [-> | H]; [reflexivity |]);
  by apply elem_of_nil in H.

Lemma DELETE_not_CREATE (a : AuditLogAction) :
  a ∈ GuildAuditLogs.DELETE_actions ->
  includes GuildAuditLogs.CREATE_actions a = false.
Proof. intros H. unfold GuildAuditLogs.DELETE_actions in H. by_cases_on H. Qed.

Lemma UPDATE_not_CREATE (a : AuditLogAction) :
  a ∈ GuildAuditLogs.UPDATE_actions ->
  includes GuildAuditLogs.CREATE_actions a = false.
Proof. intros H. unfold GuildAuditLogs.UPDATE_actions in H. by_cases_on H. Qed.

Lemma UPDATE_not_DELETE (a : AuditLogAction) :
  a ∈ GuildAuditLogs.UPDATE_actions ->
  includes GuildAuditLogs.DELETE_actions a = false.
Proof. intros H. unfold GuildAuditLogs.UPDATE_actions in H. by_cases_on H. Qed.

(** The ascending chain of [<] tests cuts the integers into half-open
    ranges. *)
Lemma targetType_ranges (c : Z) :
  (GuildAuditLogs.targetType (Some c) = Some GUILD <-> c < 10) /\
  (GuildAuditLogs.targetType (Some c) = Some CHANNEL <-> 10 <= c < 20) /\
  (GuildAuditLogs.targetType (Some c) = Some USER <-> 20 <= c < 30) /\
  (GuildAuditLogs.targetType (Some c) = Some ROLE <-> 30 <= c < 40) /\
  (GuildAuditLogs.targetType (Some c) = Some INVITE <-> 40 <= c < 50) /\
  (GuildAuditLogs.targetType (Some c) = Some WEBHOOK <-> 50 <= c < 60) /\
  (GuildAuditLogs.targetType (Some c) = Some EMOJI <-> 60 <= c < 70) /\
  (GuildAuditLogs.targetType (Some c) = Some MESSAGE <-> 70 <= c < 80) /\
  (GuildAuditLogs.targetType (Some c) = Some INTEGRATION <-> 80 <= c < 90) /\
  (GuildAuditLogs.targetType (Some c) = None <-> 90 <= c).
Proof.
  unfold GuildAuditLogs.targetType, lt.
  repeat match goal with
         | |- context [ ?x <? ?y ] => destruct (Z.ltb_spec x y)
         end;
    repeat split; intros; try discriminate; try lia; reflexivity.
Qed.

(** The three membership tests are tried in order, and the three lists
    are pairwise disjoint. *)
Lemma actionType_membership (a : AuditLogAction) :
  (GuildAuditLogs.actionType a = CREATE <->
     a ∈ GuildAuditLogs.CREATE_actions) /\
  (GuildAuditLogs.actionType a = DELETE <->
     a ∈ GuildAuditLogs.DELETE_actions) /\
  (GuildAuditLogs.actionType a = UPDATE <->
     a ∈ GuildAuditLogs.UPDATE_actions) /\
  (GuildAuditLogs.actionType a = ALL_ACTIONS <->
     (a ∉ GuildAuditLogs.CREATE_actions) /\
     (a ∉ GuildAuditLogs.DELETE_actions) /\
     (a ∉ GuildAuditLogs.UPDATE_actions)).
Proof.
  unfold GuildAuditLogs.actionType.
  destruct (includes GuildAuditLogs.CREATE_actions a) eqn:Hc;
    [| destruct (includes GuildAuditLogs.DELETE_actions a) eqn:Hd;
       [| destruct (includes GuildAuditLogs.UPDATE_actions a) eqn:Hu]].
  - apply includes_elem_of in Hc as Hc'.
    repeat split; try done.
    + intros H. apply DELETE_not_CREATE in H. congruence.
    + intros H. apply UPDATE_not_CREATE in H. congruence.
    + by intros (? & _).
  - apply includes_elem_of in Hd as Hd'. apply includes_not_elem_of in Hc.
    repeat split; try done.
    + intros H. apply UPDATE_not_DELETE in H. congruence.
    + by intros (_ & ? & _).
  - apply includes_elem_of in Hu as Hu'. apply includes_not_elem_of in Hc.
    apply includes_not_elem_of in Hd.
    repeat split; try done. by intros (_ & _ & ?).
  - apply includes_not_elem_of in Hc. apply includes_not_elem_of in Hd.
    apply includes_not_elem_of in Hu.
    repeat split; done.
Qed.

(** C2. For every action code of the fixed table of §6, [targetType]
    buckets the code by the half-open ranges [<10] GUILD, [<20] CHANNEL,
    [<30] USER, [<40] ROLE, [<50] INVITE, [<60] WEBHOOK, [<70] EMOJI,
    [<80] MESSAGE, [<90] INTEGRATION and no family from 90 on, and
    [actionType] returns CREATE, DELETE or UPDATE exactly when the code is
    in the corresponding membership list, and ALL otherwise. *)
Theorem C2_classification_of_known_codes (c : Z) :
  c ∈ known_codes ->
  ((GuildAuditLogs.targetType (Some c) = Some GUILD <-> c < 10) /\
   (GuildAuditLogs.targetType (Some c) = Some CHANNEL <-> 10 <= c < 20) /\
   (GuildAuditLogs.targetType (Some c) = Some USER <-> 20 <= c < 30) /\
   (GuildAuditLogs.targetType (Some c) = Some ROLE <-> 30 <= c < 40) /\
   (GuildAuditLogs.targetType (Some c) = Some INVITE <-> 40 <= c < 50) /\
   (GuildAuditLogs.targetType (Some c) = Some WEBHOOK <-> 50 <= c < 60) /\
   (GuildAuditLogs.targetType (Some c) = Some EMOJI <-> 60 <= c < 70) /\
   (GuildAuditLogs.targetType (Some c) = Some MESSAGE <-> 70 <= c < 80) /\
   (GuildAuditLogs.targetType (Some c) = Some INTEGRATION <-> 80 <= c < 90) /\
   (GuildAuditLogs.targetType (Some c) = None <-> 90 <= c)) /\
  ((GuildAuditLogs.actionType (Some c) = CREATE <->
      Some c ∈ GuildAuditLogs.CREATE_actions) /\
   (GuildAuditLogs.actionType (Some c) = DELETE <->
      Some c ∈ GuildAuditLogs.DELETE_actions) /\
   (GuildAuditLogs.actionType (Some c) = UPDATE <->
      Some c ∈ GuildAuditLogs.UPDATE_actions) /\
   (GuildAuditLogs.actionType (Some c) = ALL_ACTIONS <->
      (Some c ∉ GuildAuditLogs.CREATE_actions) /\
      (Some c ∉ GuildAuditLogs.DELETE_actions) /\
      (Some c ∉ GuildAuditLogs.UPDATE_actions))).
Proof.
  intros _. split; [apply targetType_ranges | apply actionType_membership].
Qed.

Lemma C2_witness :
  GuildAuditLogs.targetType (Some 73) = Some MESSAGE /\
  GuildAuditLogs.actionType (Some 73) = DELETE.
Proof.
  assert (73 ∈ known_codes) as Hknown
    by (apply list_elem_of_In; cbn; tauto).
  destruct (C2_classification_of_known_codes 73 Hknown)
    as ((_ & _ & _ & _ & _ & _ & _ & Hmessage & _) & (_ & Hdelete & _)).
  split.
  - apply Hmessage. lia.
  - apply Hdelete. unfold GuildAuditLogs.DELETE_actions.
    apply list_elem_of_In. cbn. tauto.
Defined.

(** * The entry constructor *)

Lemma constructor_Ok_inv logs guild data entry :
  GuildAuditLogsEntry.constructor logs guild data = Js.Ok entry ->
  exists extra target,
    GuildAuditLogsEntry.extra_of guild data = Js.Ok extra /\
    GuildAuditLogsEntry.target_of logs guild data
      (GuildAuditLogs.targetType (Raw.action_type data))
      (GuildAuditLogsEntry.changes_of data) = Js.Ok target /\
    entry =
      Entry.make (GuildAuditLogs.targetType (Raw.action_type data))
                 (GuildAuditLogs.actionType (Raw.action_type data))
                 (GuildAuditLogsEntry.action_of data)
                 (GuildAuditLogsEntry.reason_of data)
                 (get (Client.users (Guild.client guild)) (Raw.user_id data))
                 (GuildAuditLogsEntry.changes_of data)
                 (Raw.id data) extra target.
Proof.
  unfold GuildAuditLogsEntry.constructor. intros H.
  destruct (GuildAuditLogsEntry.extra_of guild data) as [extra|] eqn:He;
    [| discriminate].
  destruct (GuildAuditLogsEntry.target_of logs guild data _ _)
    as [target|] eqn:Ht; [| discriminate].
  exists extra, target. cbn in H. by simplify_eq.
Qed.

Lemma extra_of_default guild data :
  Raw.action_type data ∉ switch_cases ->
  GuildAuditLogsEntry.extra_of guild data = Js.Ok ExtraNull.
Proof.
  intros H. unfold GuildAuditLogsEntry.extra_of, action_eqb.
  repeat case_bool_decide; try reflexivity;
    exfalso; apply H; unfold switch_cases;
    match goal with E : Raw.action_type data = _ |- _ => rewrite E end;
    set_solver.
Qed.

Lemma switch_cases_range (c : Z) :
  Some c ∈ switch_cases -> 13 <= c <= 27 \/ 72 <= c <= 75.
Proof.
  unfold switch_cases. intros H.
  repeat (apply elem_of_cons in H as [H | H]; [injection H as ->; lia |]).
  by apply elem_of_nil in H.
Qed.




Lemma family_not_switch_case (a : AuditLogAction) (t : Target) :
  GuildAuditLogs.targetType a = Some t ->
  t = WEBHOOK \/ t = INVITE \/ t = INTEGRATION ->
  a ∉ switch_cases.
Proof.
  intros Ht Hfam Hin. destruct a as [c|].
  - apply switch_cases_range in Hin.
    destruct (targetType_ranges c)
      as (_ & _ & _ & _ & Hi & Hw & _ & _ & Hg & _).
    destruct Hfam as [-> | [-> | ->]].
    + apply Hw in Ht. lia.
    + apply Hi in Ht. lia.
    + apply Hg in Ht. lia.
  - cbn in Ht. destruct Hfam as [-> | [-> | ->]]; discriminate.
Qed.

(** C10. When the raw record has no [changes] field and its family is
    WEBHOOK with [target_id] missing from the batch's webhooks, INVITE, or
    INTEGRATION with [target_id] missing from the batch's integrations,
    the constructor throws: [reduce] is read from the [null] change list.
    No stand-in is built from the id alone. *)
Theorem C10_synthesis_needs_changes logs guild data :
  Raw.changes data = None ->
  (GuildAuditLogs.targetType (Raw.action_type data) = Some WEBHOOK /\
   get (Logs.webhooks logs) (Raw.target_id data) = None) \/
  GuildAuditLogs.targetType (Raw.action_type data) = Some INVITE \/
  (GuildAuditLogs.targetType (Raw.action_type data) = Some INTEGRATION /\
   get (Logs.integrations logs) (Raw.target_id data) = None) ->
  GuildAuditLogsEntry.constructor logs guild data =
    Js.Throw (Js.TypeError_property_of_null "reduce").
Proof.
  intros Hnone Hcase.
  unfold GuildAuditLogsEntry.constructor.
  rewrite extra_of_default; cycle 1.
  { destruct Hcase as [[Ht _] | [Ht | [Ht _]]];
      eapply family_not_switch_case; eauto. }
  unfold GuildAuditLogsEntry.changes_of. rewrite Hnone.
  unfold GuildAuditLogsEntry.target_of.
  destruct Hcase as [[-> ->] | [-> | [-> ->]]]; reflexivity.
Qed.

Lemma C10_witness :
  GuildAuditLogsEntry.constructor Sample.logs Sample.guild
    (Sample.with_target "W1" (Sample.bare "1" Actions.WEBHOOK_CREATE)) =
    Js.Throw (Js.TypeError_property_of_null "reduce") /\
  GuildAuditLogsEntry.constructor Sample.logs Sample.guild
    (Sample.bare "2" Actions.INVITE_DELETE) =
    Js.Throw (Js.TypeError_property_of_null "reduce") /\
  GuildAuditLogsEntry.constructor Sample.logs Sample.guild
    (Sample.with_target "I1" (Sample.bare "3" Actions.INTEGRATION_UPDATE)) =
    Js.Throw (Js.TypeError_property_of_null "reduce").
Proof.
  split; [| split].
  - apply C10_synthesis_needs_changes; [reflexivity |].
    left. split; reflexivity.
  - apply C10_synthesis_needs_changes; [reflexivity |].
    right. left. reflexivity.
  - apply C10_synthesis_needs_changes; [reflexivity |].
    right. right. split; reflexivity.
Defined.

Lemma get_or_hit cache (k : string) (e : Entity) (fallback : Object) :
  cache !! k = Some e -> get_or cache (Some k) fallback = Cached e.
Proof. intros H. unfold get_or, get. by rewrite H. Qed.

Lemma extra_of_bulk_delete guild data (o : gmap string string) :
  Raw.action_type data = Actions.MESSAGE_BULK_DELETE ->
  Raw.options data = Some o ->
  GuildAuditLogsEntry.extra_of guild data =
    Js.Ok (ExtraChannelCount
             (get_or (Guild.channels guild) (o !! "channel_id")
                     {[ "id" := Js.of_str (o !! "channel_id") ]})
             (Js.ToNumber (o !! "count"))).
Proof.
  intros Hact Hopt.
  unfold GuildAuditLogsEntry.extra_of, GuildAuditLogsEntry.option_prop.
  rewrite Hact, Hopt. reflexivity.
Qed.

Lemma target_of_bulk_delete logs guild data changes :
  Raw.action_type data = Actions.MESSAGE_BULK_DELETE ->
  GuildAuditLogsEntry.target_of logs guild data (Some MESSAGE) changes =
    Js.Ok (get_or (Guild.channels guild) (Raw.target_id data)
                  {[ "id" := Js.of_str (Raw.target_id data) ]}).
Proof.
  intros Hact. unfold GuildAuditLogsEntry.target_of. rewrite Hact.
  reflexivity.
Qed.

(** C4. For a MESSAGE_BULK_DELETE record (code 73) with options
    [{channel_id: "C1", count: "5"}] and C1 in the guild's channel cache,
    the entry's [extra] is the cached C1 with the number 5, and the target
    is the channel cached under [target_id], or [{id: target_id}] when
    there is none; the user cache is not consulted for it. *)
Theorem C4_bulk_delete_extra_and_target logs guild data (c1 : Entity) :
  Raw.action_type data = Actions.MESSAGE_BULK_DELETE ->
  Raw.options data =
    Some (<["channel_id" := "C1"]> ({[ "count" := "5" ]} : gmap string string)) ->
  Guild.channels guild !! "C1" = Some c1 ->
  exists entry,
    GuildAuditLogsEntry.constructor logs guild data = Js.Ok entry /\
    Entry.targetType entry = Some MESSAGE /\
    Entry.extra entry = ExtraChannelCount (Cached c1) (Js.Int 5) /\
    Entry.target entry =
      match get (Guild.channels guild) (Raw.target_id data) with
      | Some channel => Cached channel
      | None => Plain {[ "id" := Js.of_str (Raw.target_id data) ]}
      end.
Proof.
  intros Hact Hopt Hc1.
  unfold GuildAuditLogsEntry.constructor.
  rewrite (extra_of_bulk_delete _ _ _ Hact Hopt).
  replace (GuildAuditLogs.targetType (Raw.action_type data))
    with (Some MESSAGE) by (by rewrite Hact).
  rewrite (target_of_bulk_delete _ _ _ _ Hact).
  rewrite lookup_insert_eq, lookup_insert_ne, lookup_singleton_eq by done.
  rewrite (get_or_hit _ _ _ _ Hc1).
  eexists. split; [reflexivity |]. cbn.
  split; [reflexivity |]. split; reflexivity.
Qed.

Lemma C4_witness :
  exists entry,
    GuildAuditLogsEntry.constructor Sample.logs Sample.guild
      (Sample.with_target "C1"
         (Sample.with_options
            (<["channel_id" := "C1"]> {[ "count" := "5" ]})
            (Sample.bare "1" Actions.MESSAGE_BULK_DELETE))) = Js.Ok entry /\
    Entry.targetType entry = Some MESSAGE /\
    Entry.extra entry =
      ExtraChannelCount (Cached Sample.channel_C1) (Js.Int 5) /\
    Entry.target entry = Cached Sample.channel_C1.
Proof.
  exact (C4_bulk_delete_extra_and_target Sample.logs Sample.guild
           (Sample.with_target "C1"
              (Sample.with_options
                 (<["channel_id" := "C1"]> {[ "count" := "5" ]})
                 (Sample.bare "1" Actions.MESSAGE_BULK_DELETE)))
           Sample.channel_C1 eq_refl eq_refl eq_refl).
Defined.

(** C5. For a WEBHOOK_CREATE record (code 50) whose [target_id] "W1" is
    not among the batch's webhooks and whose changes are
    [[{key: "name", new_value: "hook"}]], the target is a webhook newly
    constructed from the changes flattened over
    [{id: "W1", guild_id: guild.id}]: its payload has id "W1", the guild's
    id and name "hook". *)
Theorem C5_webhook_synthesized logs guild data :
  Raw.action_type data = Actions.WEBHOOK_CREATE ->
  Raw.target_id data = Some "W1" ->
  Logs.webhooks logs !! "W1" = None ->
  Raw.changes data =
    Some [Raw.mkChange "name" Js.VUndefined (Js.VStr "hook")] ->
  exists entry payload,
    GuildAuditLogsEntry.constructor logs guild data = Js.Ok entry /\
    Entry.target entry = Cached (new Class.Webhook payload None) /\
    payload =
      GuildAuditLogsEntry.flatten
        [mkAuditLogChange "name" Js.VUndefined (Js.VStr "hook")]
        (<["guild_id" := Js.VStr (Guild.id guild)]>
           {[ "id" := Js.VStr "W1" ]}) /\
    payload !! "id" = Some (Js.VStr "W1") /\
    payload !! "guild_id" = Some (Js.VStr (Guild.id guild)) /\
    payload !! "name" = Some (Js.VStr "hook").
Proof.
  intros Hact Htarget Hmiss Hchanges.
  unfold GuildAuditLogsEntry.constructor.
  rewrite extra_of_default; cycle 1.
  { rewrite Hact. intros Hin. apply switch_cases_range in Hin. lia. }
  unfold GuildAuditLogsEntry.changes_of, GuildAuditLogsEntry.target_of.
  rewrite Hact, Htarget, Hchanges. cbn. rewrite Hmiss. cbn.
  eexists. eexists. split; [reflexivity |]. cbn.
  split; [reflexivity |]. split; [reflexivity |].
  unfold GuildAuditLogsEntry.flatten. cbn.
  split; [| split]; by simplify_map_eq.
Qed.

Lemma C5_witness :
  exists entry payload,
    GuildAuditLogsEntry.constructor Sample.logs Sample.guild
      (Sample.with_changes
         [Raw.mkChange "name" Js.VUndefined (Js.VStr "hook")]
         (Sample.with_target "W1" (Sample.bare "1" Actions.WEBHOOK_CREATE)))
      = Js.Ok entry /\
    Entry.target entry = Cached (new Class.Webhook payload None) /\
    payload !! "id" = Some (Js.VStr "W1") /\
    payload !! "guild_id" = Some (Js.VStr "G1") /\
    payload !! "name" = Some (Js.VStr "hook").
Proof.
  destruct (C5_webhook_synthesized Sample.logs Sample.guild
              (Sample.with_changes
                 [Raw.mkChange "name" Js.VUndefined (Js.VStr "hook")]
                 (Sample.with_target "W1"
                    (Sample.bare "1" Actions.WEBHOOK_CREATE)))
              eq_refl eq_refl eq_refl eq_refl)
    as (entry & payload & Hok & Htarget & _ & Hid & Hguild & Hname).
  exists entry, payload. auto.
Defined.

(** * The change list *)

(** C3, as stated, fails: a raw record whose change list is present and
    empty yields an entry whose [changes] is the empty array, not [null]. *)
Lemma C3_counterexample :
  Raw.changes Sample.empty_changes = Some [] /\
  exists entry,
    GuildAuditLogsEntry.constructor Sample.logs Sample.guild
      Sample.empty_changes = Js.Ok entry /\
    Entry.changes entry = Some [] /\
    Entry.changes entry <> None.
Proof.
  split; [reflexivity |]. eexists. split; [reflexivity |]. cbn.
  split; [reflexivity | discriminate].
Qed.

(** C3, amended. The entry's [changes] is [null] exactly when the raw
    record carries no change list; a change list that is present, empty or
    not, is mapped element by element from [{key, old_value, new_value}]
    to [{key, old, new}], keeping length and order, so an empty list stays
    an empty array. *)
Theorem C3_changes_null_iff_absent logs guild data entry :
  GuildAuditLogsEntry.constructor logs guild data = Js.Ok entry ->
  (Entry.changes entry = None <-> Raw.changes data = None) /\
  (Raw.changes data = Some [] -> Entry.changes entry = Some []) /\
  (forall cs, Raw.changes data = Some cs ->
     exists cs',
       Entry.changes entry = Some cs' /\
       length cs' = length cs /\
       forall (i : nat) c, cs !! i = Some c ->
         cs' !! i = Some (mkAuditLogChange (Raw.key c) (Raw.old_value c)
                                           (Raw.new_value c))).
Proof.
  intros Hok.
  apply constructor_Ok_inv in Hok as (extra & target & _ & _ & ->).
  cbn. unfold GuildAuditLogsEntry.changes_of.
  destruct (Raw.changes data) as [cs|]; repeat split; try done.
  - intros Hnil. by simplify_eq.
  - intros cs0 Hcs. simplify_eq. exists (map GuildAuditLogsEntry.normalize cs0).
    split; [reflexivity |]. split; [apply length_map |].
    intros i c Hi. rewrite list_lookup_fmap, Hi. reflexivity.
Qed.

Lemma C3_witness :
  (Entry.changes
     (Entry.make (Some GUILD) UPDATE (Some "GUILD_UPDATE") None None
                 (Some []) "1" ExtraNull Undefined) = None <->
   Raw.changes Sample.empty_changes = None) /\
  (Raw.changes Sample.empty_changes = Some [] ->
   Entry.changes
     (Entry.make (Some GUILD) UPDATE (Some "GUILD_UPDATE") None None
                 (Some []) "1" ExtraNull Undefined) = Some []).
Proof.
  destruct (C3_changes_null_iff_absent Sample.logs Sample.guild
              Sample.empty_changes _ eq_refl) as (Hiff & Hnil & _).
  exact (conj Hiff Hnil).
Defined.

(** * Codes outside the table *)










(** * The entry collection *)

Section Collection_facts.

Context {V : Type}.
Implicit Types (m : Collection.t V) (k : string) (v : V).

Lemma keyArray_set k v m :
  Collection.keyArray (Collection.set k v m) =
    if decide (k ∈ Collection.keyArray m) then Collection.keyArray m
    else (Collection.keyArray m ++ [k])%list.
Proof.
  unfold Collection.keyArray.
  induction m as [| [k' v'] m IH]; cbn; [by rewrite decide_False by set_solver |].
  destruct (decide (k' = k)) as [-> | Hne]; cbn.
  - by rewrite decide_True by set_solver.
  - rewrite IH. repeat case_decide; set_solver.
Qed.

Lemma get_set k k' v m :
  Collection.get k' (Collection.set k v m) =
    if decide (k = k') then Some v else Collection.get k' m.
Proof.
  induction m as [| [k0 v0] m IH]; cbn.
  - repeat case_decide; congruence.
  - destruct (decide (k0 = k)) as [-> | Hne]; cbn;
      repeat case_decide; congruence.
Qed.

Lemma set_fresh k v m :
  k ∉ Collection.keyArray m -> Collection.set k v m = (m ++ [(k, v)])%list.
Proof.
  unfold Collection.keyArray.
  induction m as [| [k' v'] m IH]; cbn; intros Hk; [reflexivity |].
  rewrite decide_False by set_solver. f_equal. apply IH. set_solver.
Qed.

End Collection_facts.

Lemma set_all_cons m e es :
  set_all m (e :: es) = set_all (Collection.set (Entry.id e) e m) es.
Proof. reflexivity. Qed.

Lemma set_all_snoc m es e :
  set_all m (es ++ [e]) = Collection.set (Entry.id e) e (set_all m es).
Proof. unfold set_all. by rewrite foldl_snoc. Qed.

(** A key holds the last entry set under it. *)
Lemma get_set_all k m es :
  Collection.get k (set_all m es) =
    match last (filter (fun e => Entry.id e = k) es) with
    | Some e => Some e
    | None => Collection.get k m
    end.
Proof.
  induction es as [| e es IH] using rev_ind; [reflexivity |].
  rewrite set_all_snoc, get_set, filter_app, filter_cons, filter_nil.
  destruct (decide (Entry.id e = k)) as [Heq | Hne].
  - by rewrite last_snoc.
  - by rewrite app_nil_r.
Qed.

Lemma filter_not_elem_of_snoc (ks : list string) (k : string) (l : list string) :
  filter (fun k' => k' ∉ (ks ++ [k])%list) l =
    filter (fun k' => k' ∉ ks) (filter (fun k' => k' <> k) l).
Proof.
  rewrite list_filter_filter. apply list_filter_iff. intros k'.
  rewrite not_elem_of_app, list_elem_of_singleton. tauto.
Qed.

(** Keys stand in order of first insertion. *)
Lemma keyArray_set_all m es :
  Collection.keyArray (set_all m es) =
    (Collection.keyArray m ++
       filter (fun k => k ∉ Collection.keyArray m)
              (distinct (Entry.id <$> es)))%list.
Proof.
  revert m. induction es as [| e es IH]; intros m.
  - cbn. by rewrite app_nil_r.
  - rewrite set_all_cons, fmap_cons. cbn [distinct].
    rewrite IH, keyArray_set, filter_cons.
    destruct (decide (Entry.id e ∈ Collection.keyArray m)) as [Hin | Hout].
    + rewrite decide_False by tauto. f_equal.
      rewrite list_filter_filter. apply list_filter_iff. intros k'.
      split; [| tauto]. intros Hk'. split; [done |]. by intros ->.
    + rewrite decide_True by done.
      rewrite <- app_assoc. cbn. do 2 f_equal.
      apply filter_not_elem_of_snoc.
Qed.

(** With fresh, pairwise distinct ids every [set] appends. *)
Lemma set_all_NoDup m es :
  NoDup (Collection.keyArray m ++ (Entry.id <$> es))%list ->
  set_all m es = (m ++ ((fun e => (Entry.id e, e)) <$> es))%list.
Proof.
  revert m. induction es as [| e es IH]; intros m Hnd.
  - cbn. by rewrite app_nil_r.
  - rewrite set_all_cons, fmap_cons. rewrite fmap_cons in Hnd.
    assert (Entry.id e ∉ Collection.keyArray m) as Hfresh.
    { apply NoDup_app in Hnd as (_ & Hdisj & _). intros Hin.
      apply (Hdisj _ Hin). left. }
    rewrite (set_fresh _ _ _ Hfresh), IH.
    + by rewrite <- app_assoc.
    + unfold Collection.keyArray in *. rewrite fmap_app, <- app_assoc. exact Hnd.
Qed.

(** The entry constructor reads the batch's webhooks and integrations, not
    the entries set so far. *)
Lemma constructor_entries_irrelevant webhooks integrations entries entries'
    guild data :
  GuildAuditLogsEntry.constructor
    (Logs.make webhooks integrations entries) guild data =
  GuildAuditLogsEntry.constructor
    (Logs.make webhooks integrations entries') guild data.
Proof. reflexivity. Qed.

Lemma constructor_id logs guild data entry :
  GuildAuditLogsEntry.constructor logs guild data = Js.Ok entry ->
  Entry.id entry = Raw.id data.
Proof.
  intros H. by apply constructor_Ok_inv in H as (? & ? & _ & _ & ->).
Qed.

(** The loop constructs one entry per item, in order, and sets each. *)
Lemma for_entries_Ok logs guild items logs' :
  for_entries logs guild items = Js.Ok logs' ->
  exists es,
    Forall2 (fun item e =>
               GuildAuditLogsEntry.constructor
                 (Logs.make (Logs.webhooks logs) (Logs.integrations logs)
                            Collection.empty) guild item = Js.Ok e)
            items es /\
    logs' = Logs.make (Logs.webhooks logs) (Logs.integrations logs)
                      (set_all (Logs.entries logs) es).
Proof.
  revert logs. induction items as [| item items IH]; intros logs H; cbn in H.
  - exists []. split; [constructor |]. destruct logs. by simplify_eq.
  - destruct (GuildAuditLogsEntry.constructor logs guild item)
      as [e |] eqn:He; [| discriminate].
    cbn in H. apply IH in H as (es & Hall & ->). cbn in *.
    exists (e :: es). split; [| reflexivity].
    constructor; [| exact Hall].
    destruct logs as [w i en]. cbn.
    by rewrite (constructor_entries_irrelevant w i _ en).
Qed.

(** The loop goes through when every item resolves. *)
Lemma for_entries_complete logs guild items es :
  Forall2 (fun item e =>
             GuildAuditLogsEntry.constructor
               (Logs.make (Logs.webhooks logs) (Logs.integrations logs)
                          Collection.empty) guild item = Js.Ok e)
          items es ->
  for_entries logs guild items =
    Js.Ok (Logs.make (Logs.webhooks logs) (Logs.integrations logs)
                     (set_all (Logs.entries logs) es)).
Proof.
  revert logs es. induction items as [| item items IH]; intros logs es Hall.
  - apply Forall2_nil_inv_l in Hall as ->. by destruct logs.
  - apply Forall2_cons_inv_l in Hall as (e & es' & He & Hall & ->).
    cbn. destruct logs as [w i en]. cbn in *.
    rewrite (constructor_entries_irrelevant w i en Collection.empty), He.
    cbn. by rewrite (IH _ es').
Qed.

Lemma filter_none_excluded (l : list string) :
  filter (fun k => k ∉ ([] : list string)) l = l.
Proof.
  induction l as [| k l IH]; [reflexivity |].
  rewrite filter_cons, decide_True by apply not_elem_of_nil. by rewrite IH.
Qed.

Lemma constructed_ids logs guild items es :
  Forall2 (fun item e =>
             GuildAuditLogsEntry.constructor logs guild item = Js.Ok e)
          items es ->
  Entry.id <$> es = Raw.id <$> items.
Proof.
  induction 1 as [| item e items es He _ IH]; [reflexivity |].
  rewrite !fmap_cons, IH. f_equal. exact (constructor_id _ _ _ _ He).
Qed.

(** C6, as stated, fails. Of three records with ids 1, 2, 1 the third
    overwrites the first where the first stands: the collection iterates
    the third record's entry, then the second's, which is not the source
    order of the entries it holds. *)
Lemma C6_counterexample :
  new_GuildAuditLogs Sample.guild Sample.colliding =
    (Sample.guild,
     Js.Ok (Logs.make ∅ ∅ [ ("1", Sample.updated "1" "c");
                            ("2", Sample.updated "2" "b") ])) /\
  Forall2 (fun item e =>
             GuildAuditLogsEntry.constructor Sample.logs Sample.guild item
               = Js.Ok e)
          (Raw.audit_log_entries Sample.colliding)
          [ Sample.updated "1" "a"; Sample.updated "2" "b";
            Sample.updated "1" "c" ] /\
  ~ sublist [ Sample.updated "1" "c"; Sample.updated "2" "b" ]
            [ Sample.updated "1" "a"; Sample.updated "2" "b";
              Sample.updated "1" "c" ].
Proof.
  split; [reflexivity |]. split.
  - repeat constructor.
  - intros H. apply (fmap_sublist Entry.reason) in H. cbn in H.
    repeat match goal with
           | H : sublist _ (_ :: _) |- _ =>
               apply sublist_cons_r in H as [H | (? & ? & H)]; simplify_eq
           | H : sublist _ [] |- _ =>
               apply sublist_nil_r in H; simplify_eq
           end.
Qed.

(** C6, amended. When the batch constructor returns, one entry has been
    constructed per element of [audit_log_entries], in source order, each
    with the id of its element; every id is bound to the last entry
    constructed with it, and the ids iterate in order of first occurrence,
    so a later entry with a colliding id takes the place of the earlier
    one. When the ids are pairwise distinct, the collection iterates the
    entries in source order, whatever the id values. *)
Theorem C6_entries_keyed_in_source_order guild data guild' logs :
  new_GuildAuditLogs guild data = (guild', Js.Ok logs) ->
  exists es : list Entry.t,
    Forall2 (fun item e =>
               GuildAuditLogsEntry.constructor
                 (Logs.make (Logs.webhooks logs) (Logs.integrations logs)
                            Collection.empty) guild' item = Js.Ok e /\
               Entry.id e = Raw.id item)
            (Raw.audit_log_entries data) es /\
    (forall k, Collection.get k (Logs.entries logs) =
               last (filter (fun e => Entry.id e = k) es)) /\
    Collection.keyArray (Logs.entries logs) =
      distinct (Raw.id <$> Raw.audit_log_entries data) /\
    (NoDup (Raw.id <$> Raw.audit_log_entries data) ->
     Logs.entries logs = (fun e => (Entry.id e, e)) <$> es).
Proof.
  unfold new_GuildAuditLogs. intros H. injection H as Hguild Hloop.
  rewrite Hguild in Hloop.
  apply for_entries_Ok in Hloop as (es & Hall & ->).
  cbn [Logs.entries Logs.webhooks Logs.integrations] in *.
  pose proof (constructed_ids _ _ _ _ Hall) as Hids.
  exists es. split; [| split; [| split]].
  - eapply Forall2_impl; [exact Hall |]. intros item e He.
    split; [exact He | exact (constructor_id _ _ _ _ He)].
  - intros k. rewrite get_set_all.
    by destruct (last (filter (fun e => Entry.id e = k) es)).
  - rewrite keyArray_set_all.
    change (Collection.keyArray Collection.empty) with ([] : list string).
    by rewrite app_nil_l, filter_none_excluded, Hids.
  - intros Hnd. rewrite set_all_NoDup; [reflexivity |].
    cbn. by rewrite Hids.
Qed.

Lemma C6_witness :
  exists es : list Entry.t,
    Entry.id <$> es = [ "3"; "1"; "2" ] /\
    Collection.array
      [ ("3", Sample.updated "3" "a"); ("1", Sample.updated "1" "b");
        ("2", Sample.updated "2" "c") ] = es.
Proof.
  destruct (C6_entries_keyed_in_source_order Sample.guild Sample.unordered
              Sample.guild
              (Logs.make ∅ ∅ [ ("3", Sample.updated "3" "a");
                               ("1", Sample.updated "1" "b");
                               ("2", Sample.updated "2" "c") ])
              eq_refl)
    as (es & Hall & _ & _ & Horder).
  exists es. split.
  - rewrite (constructed_ids _ _ _ _
               (Forall2_impl _ _ _ _ Hall (fun _ _ H => proj1 H))).
    reflexivity.
  - cbn in Horder. rewrite Horder.
    + unfold Collection.array. rewrite <- list_fmap_compose.
      by rewrite list_fmap_id.
    + repeat constructor; set_solver.
Defined.

(** * Running the batch constructor twice *)

Lemma newUser_keeps users user (k : string) :
  is_Some (users !! k) -> is_Some (newUser users user !! k).
Proof.
  intros Hk. unfold newUser.
  destruct (users !! Raw.payload_id user) eqn:Hid; [done |].
  rewrite lookup_insert_ne; [done |]. intros <-. rewrite Hid in Hk.
  by destruct Hk.
Qed.

Lemma newUser_cached users user :
  is_Some (newUser users user !! Raw.payload_id user).
Proof.
  unfold newUser. destruct (users !! Raw.payload_id user) eqn:Hid.
  - by rewrite Hid.
  - by rewrite lookup_insert_eq.
Qed.

Lemma foldl_newUser_keeps us users (k : string) :
  is_Some (users !! k) -> is_Some (foldl newUser users us !! k).
Proof.
  revert users. induction us as [| u us IH]; intros users Hk; [done |].
  cbn. by apply IH, newUser_keeps.
Qed.

Lemma foldl_newUser_cached us users user :
  user ∈ us -> is_Some (foldl newUser users us !! Raw.payload_id user).
Proof.
  revert users. induction us as [| u us IH]; intros users Hin.
  - by apply elem_of_nil in Hin.
  - cbn. apply elem_of_cons in Hin as [-> | Hin].
    + apply foldl_newUser_keeps, newUser_cached.
    + by apply IH.
Qed.

Lemma foldl_newUser_all_cached us users :
  (forall user, user ∈ us -> is_Some (users !! Raw.payload_id user)) ->
  foldl newUser users us = users.
Proof.
  induction us as [| u us IH]; intros Hall; [reflexivity |].
  cbn. unfold newUser at 2.
  destruct (Hall u) as [cached ->]; [by left |].
  apply IH. intros user Hin. apply Hall. by right.
Qed.

(** Upserting the users of a batch a second time changes nothing. *)
Lemma foldl_newUser_idempotent us users :
  foldl newUser (foldl newUser users us) us = foldl newUser users us.
Proof.
  apply foldl_newUser_all_cached. intros user Hin.
  by apply foldl_newUser_cached.
Qed.

(** C7. Constructing the batch from the same raw data a second time, in
    the guild as the first construction left it, gives the same outcome as
    the first, the same entries field by field or the same exception, and
    leaves the guild as it was: the only state the constructor writes, the
    client's user cache, is already up to date. *)
Theorem C7_second_run_is_identical guild data :
  new_GuildAuditLogs (new_GuildAuditLogs guild data).1 data =
    new_GuildAuditLogs guild data.
Proof.
  unfold new_GuildAuditLogs. cbn [fst].
  destruct (Raw.users data) as [us |]; [| reflexivity].
  destruct guild as [gid gchannels gmembers groles gemojis [users gs cs]].
  unfold Guild.with_users. cbn.
  by rewrite foldl_newUser_idempotent.
Qed.

(** * Timestamps *)

Lemma high_bits_decoded (low_bits ms low : Z) :
  0 <= low_bits -> 0 <= low < 2 ^ low_bits ->
  Z.shiftr (ms * 2 ^ low_bits + low) low_bits = ms.
Proof.
  intros Hbits Hlow. rewrite Z.shiftr_div_pow2 by done.
  rewrite Z.div_add_l by lia. rewrite Z.div_small by done. lia.
Qed.

(** C8. [createdTimestamp] is decoded from the entry's id and from nothing
    else: it is the timestamp of the Snowflake deconstruction of the id,
    the high bits of the integer the id is written as, counted from the
    epoch. So an id that embeds a millisecond value in its high bits gives
    that value back whatever its low bits are, two entries whose ids are
    equal or agree in their high bits have the same timestamp, a larger id
    never has a smaller one, and [createdAt] is the date made of exactly
    that value. *)
Theorem C8_timestamp_decoded_from_id (low_bits epoch : Z)
    (entry other : Entry.t) (n m : Z) :
  0 <= low_bits ->
  Snowflake.integer (Entry.id entry) = Some n ->
  Snowflake.integer (Entry.id other) = Some m ->
  createdTimestamp (Snowflake.deconstruct low_bits epoch) entry =
    Snowflake.timestamp (Snowflake.deconstruct low_bits epoch (Entry.id entry))
  /\
  createdTimestamp (Snowflake.deconstruct low_bits epoch) entry =
    Js.Int (n / 2 ^ low_bits + epoch) /\
  (forall ms low,
     0 <= low < 2 ^ low_bits -> n = (ms - epoch) * 2 ^ low_bits + low ->
     createdTimestamp (Snowflake.deconstruct low_bits epoch) entry = Js.Int ms)
  /\
  (Entry.id entry = Entry.id other \/ n / 2 ^ low_bits = m / 2 ^ low_bits ->
   createdTimestamp (Snowflake.deconstruct low_bits epoch) entry =
     createdTimestamp (Snowflake.deconstruct low_bits epoch) other) /\
  (n <= m ->
   exists a b,
     createdTimestamp (Snowflake.deconstruct low_bits epoch) entry = Js.Int a /\
     createdTimestamp (Snowflake.deconstruct low_bits epoch) other = Js.Int b /\
     a <= b) /\
  createdAt (Snowflake.deconstruct low_bits epoch) entry =
    Date_of (Js.Int (n / 2 ^ low_bits + epoch)).
Proof.
  intros Hbits Hn Hm.
  assert (forall e k, Snowflake.integer (Entry.id e) = Some k ->
            createdTimestamp (Snowflake.deconstruct low_bits epoch) e
            = Js.Int (k / 2 ^ low_bits + epoch)) as Hstamp.
  { intros e k Hk. unfold createdTimestamp, Snowflake.deconstruct.
    rewrite Hk. cbn. by rewrite Z.shiftr_div_pow2. }
  split; [reflexivity |]. split; [by apply Hstamp |].
  split; [| split; [| split]].
  - intros ms low Hlow ->. rewrite (Hstamp _ _ Hn).
    rewrite <- Z.shiftr_div_pow2 by done.
    rewrite high_bits_decoded by done. f_equal. lia.
  - intros [Hid | Hhigh].
    + rewrite Hid in Hn. rewrite Hn in Hm. injection Hm as <-.
      by rewrite (Hstamp entry n), (Hstamp other n)
        by (by rewrite ?Hid).
    + by rewrite (Hstamp _ _ Hn), (Hstamp _ _ Hm), Hhigh.
  - intros Hle. exists (n / 2 ^ low_bits + epoch), (m / 2 ^ low_bits + epoch).
    split; [by apply Hstamp |]. split; [by apply Hstamp |].
    apply Z.add_le_mono_r, Z.div_le_mono; [| done].
    by apply Z.pow_pos_nonneg.
  - unfold createdAt. by rewrite (Hstamp _ _ Hn).
Qed.

Lemma C8_witness :
  createdTimestamp (Snowflake.deconstruct 22 1420070400000)
    (Sample.updated "175928847299117063" "a") = Js.Int 1462015105796 /\
  createdAt (Snowflake.deconstruct 22 1420070400000)
    (Sample.updated "175928847299117063" "a")
    = Date_of (Js.Int 1462015105796).
Proof.
  destruct (C8_timestamp_decoded_from_id 22 1420070400000
              (Sample.updated "175928847299117063" "a")
              (Sample.updated "175928847299117063" "b")
              175928847299117063 175928847299117063)
    as (_ & Hstamp & _ & _ & _ & Hdate); [lia | reflexivity | reflexivity |].
  exact (conj Hstamp Hdate).
Defined.

(** * More on the classification tables *)

Lemma table_codes_NoDup : NoDup (Actions.table.*2).
Proof. apply (bool_decide_unpack _). by vm_compute. Qed.

Lemma find_by_unique_value {K} (l : list (K * AuditLogAction)) k a :
  NoDup l.*2 -> (k, a) ∈ l ->
  List.find (fun kv => action_eqb kv.2 a) l = Some (k, a).
Proof.
  induction l as [| [k' a'] l IH]; intros Hnd Hin; [by apply elem_of_nil in Hin |].
  cbn in *. apply NoDup_cons in Hnd as [Hfresh Hnd]. unfold action_eqb at 1.
  apply elem_of_cons in Hin as [Heq | Hin].
  - simplify_eq. by rewrite bool_decide_eq_true_2.
  - rewrite bool_decide_eq_false_2; [by apply IH |].
    intros ->. apply Hfresh. apply list_elem_of_fmap. by exists (k, a).
Qed.

(** X1. The entry's [action] is a name of [Actions] exactly when that name is
    bound to the record's [action_type], [null] included; it is
    [undefined] exactly when no name is bound to the code. The codes of
    the table are pairwise distinct, so the name found is the only one. *)
Theorem action_name_reverse_lookup (data : Raw.Entry) :
  (forall name,
     GuildAuditLogsEntry.action_of data = Some name <->
     (name, Raw.action_type data) ∈ Actions.table) /\
  (GuildAuditLogsEntry.action_of data = None <->
   Raw.action_type data ∉ Actions.table.*2).
Proof.
  unfold GuildAuditLogsEntry.action_of.
  destruct (List.find _ Actions.table) as [[k a] |] eqn:Hfind.
  - apply find_some in Hfind as [Hin Heq]. cbn in Heq.
    apply bool_decide_eq_true in Heq. subst a.
    apply list_elem_of_In in Hin. split.
    + intros name. cbn. split.
      * intros [= <-]. exact Hin.
      * intros Hname.
        pose proof (find_by_unique_value _ _ _ table_codes_NoDup Hname) as H1.
        pose proof (find_by_unique_value _ _ _ table_codes_NoDup Hin) as H2.
        rewrite H1 in H2. by simplify_eq.
    + split; [done |]. intros Hout. exfalso. apply Hout.
      apply list_elem_of_fmap. by exists (k, Raw.action_type data).
  - split.
    + intros name. split; [done |]. intros Hname.
      by rewrite (find_by_unique_value _ _ _ table_codes_NoDup Hname) in Hfind.
    + split; [| done]. intros _ Hin.
      apply list_elem_of_fmap in Hin as ([k a] & Ha & Hin). cbn in Ha. subst a.
      by rewrite (find_by_unique_value _ _ _ table_codes_NoDup Hin) in Hfind.
Qed.

(** X2. The three verb lists cover the table: a code gets a verb other than
    ALL exactly when it is a code of [Actions] other than [null], and every
    code of [Actions] has a family. *)
Theorem verbs_and_families_cover_the_table (a : AuditLogAction) :
  (GuildAuditLogs.actionType a <> ALL_ACTIONS <->
   a <> None /\ a ∈ Actions.table.*2) /\
  (a ∈ Actions.table.*2 -> is_Some (GuildAuditLogs.targetType a)).
Proof.
  split; [split |].
  - intros Hverb.
    destruct (actionType_membership a) as (Hc & Hd & Hu & Hall).
    destruct (GuildAuditLogs.actionType a) eqn:Hv; [| | | done].
    + apply proj1 in Hc. specialize (Hc eq_refl).
      unfold GuildAuditLogs.CREATE_actions in Hc.
      repeat (apply elem_of_cons in Hc as [-> | Hc];
              [split; [discriminate | by apply includes_elem_of] |]).
      by apply elem_of_nil in Hc.
    + apply proj1 in Hd. specialize (Hd eq_refl).
      unfold GuildAuditLogs.DELETE_actions in Hd.
      repeat (apply elem_of_cons in Hd as [-> | Hd];
              [split; [discriminate | by apply includes_elem_of] |]).
      by apply elem_of_nil in Hd.
    + apply proj1 in Hu. specialize (Hu eq_refl).
      unfold GuildAuditLogs.UPDATE_actions in Hu.
      repeat (apply elem_of_cons in Hu as [-> | Hu];
              [split; [discriminate | by apply includes_elem_of] |]).
      by apply elem_of_nil in Hu.
  - intros [Hnn Hin]. cbn in Hin.
    repeat (apply elem_of_cons in Hin as [-> | Hin];
            [first [ by destruct Hnn | by vm_compute ] |]).
    by apply elem_of_nil in Hin.
  - intros Hin. cbn in Hin.
    repeat (apply elem_of_cons in Hin as [-> | Hin];
            [eexists; by vm_compute |]).
    by apply elem_of_nil in Hin.
Qed.

Lemma verbs_and_families_witness :
  GuildAuditLogs.actionType Actions.BOT_ADD <> ALL_ACTIONS /\
  is_Some (GuildAuditLogs.targetType Actions.BOT_ADD).
Proof.
  assert (Actions.BOT_ADD ∈ Actions.table.*2) as Hin
    by (by apply includes_elem_of).
  destruct (verbs_and_families_cover_the_table Actions.BOT_ADD) as [Hv Hf].
  split; [apply Hv; by split | by apply Hf].
Defined.

(** * When the entry constructor throws *)

Lemma targetType_cases (a : AuditLogAction) :
  GuildAuditLogs.targetType a ∈
    [ Some GUILD; Some CHANNEL; Some USER; Some ROLE; Some INVITE;
      Some WEBHOOK; Some EMOJI; Some MESSAGE; Some INTEGRATION; None ].
Proof.
  unfold GuildAuditLogs.targetType.
  repeat match goal with
         | |- context [ if lt a ?n then _ else _ ] => destruct (lt a n)
         end;
    apply list_elem_of_In; cbn; tauto.
Qed.

Lemma switch_cases_family (a : AuditLogAction) :
  a ∈ switch_cases ->
  GuildAuditLogs.targetType a ∈ [ Some CHANNEL; Some USER; Some MESSAGE ].
Proof.
  unfold switch_cases. intros H.
  repeat (apply elem_of_cons in H as [-> | H];
          [apply list_elem_of_In; cbn; tauto |]).
  by apply elem_of_nil in H.
Qed.

(** The [extra] switch throws exactly on a [case] without [options]. *)
Lemma extra_of_throws guild data :
  (exists err, GuildAuditLogsEntry.extra_of guild data = Js.Throw err) <->
  Raw.action_type data ∈ switch_cases /\ Raw.options data = None.
Proof.
  destruct (decide (Raw.action_type data ∈ switch_cases)) as [Hin | Hout].
  - destruct (Raw.options data) as [o |] eqn:Hopt.
    + split; [| by intros [_ ?]]. intros [err Herr]. exfalso. revert Herr.
      unfold GuildAuditLogsEntry.extra_of, GuildAuditLogsEntry.option_prop.
      rewrite Hopt. cbn.
      repeat match goal with
             | |- context [ if ?b then _ else _ ] => destruct b
             end; discriminate.
    + split; [done |]. intros _.
      unfold GuildAuditLogsEntry.extra_of, GuildAuditLogsEntry.option_prop.
      rewrite Hopt. unfold switch_cases in Hin.
      repeat (apply elem_of_cons in Hin as [-> | Hin]; [by eexists |]).
      by apply elem_of_nil in Hin.
  - rewrite (extra_of_default _ _ Hout). split; [by intros [? ?] | by intros [? _]].
Qed.

(** The chain of tests, family by family. *)
Lemma target_of_by_family logs guild data fam changes :
  GuildAuditLogsEntry.target_of logs guild data fam changes =
    let target_id := Raw.target_id data in
    let id := {[ "id" := Js.of_str target_id ]} : Object in
    match fam with
    | Some UNKNOWN =>
        _ ← GuildAuditLogsEntry.reduce changes ∅;
        Js.Throw (Js.TypeError_set_property_of_null "id")
    | Some USER =>
        if Js.str_truthy target_id
        then Js.Ok (lookup_ref (Client.users (Guild.client guild)) target_id)
        else Js.Ok Null
    | Some GUILD =>
        Js.Ok (lookup_ref (Client.guilds (Guild.client guild)) target_id)
    | Some WEBHOOK =>
        match get (Logs.webhooks logs) target_id with
        | Some hook => Js.Ok (Cached hook)
        | None =>
            o ← GuildAuditLogsEntry.reduce changes
                  (<["guild_id" := Js.VStr (Guild.id guild)]> id);
            Js.Ok (Cached (new Class.Webhook o None))
        end
    | Some INVITE =>
        o ← GuildAuditLogsEntry.reduce_state changes
              (<["guild" := Js.VGuild (Guild.id guild)]> id);
        Js.Ok (Cached
                 (new Class.Invite
                    (<["channel" :=
                         Js.VObj
                           [("id", GuildAuditLogsEntry.field o "channel_id")]]>
                       o.1)
                    None))
    | Some MESSAGE =>
        if action_eqb (Raw.action_type data) Actions.MESSAGE_BULK_DELETE
        then Js.Ok (get_or (Guild.channels guild) target_id id)
        else Js.Ok (lookup_ref (Client.users (Guild.client guild)) target_id)
    | Some INTEGRATION =>
        match get (Logs.integrations logs) target_id with
        | Some integration => Js.Ok (Cached integration)
        | None =>
            o ← GuildAuditLogsEntry.reduce changes id;
            Js.Ok (Cached (new Class.Integration o (Some (Guild.id guild))))
        end
    | Some CHANNEL =>
        if Js.str_truthy target_id
        then Js.Ok (get_or (Guild.channels guild) target_id id)
        else Js.Ok Null
    | Some ROLE =>
        if Js.str_truthy target_id
        then Js.Ok (get_or (Guild.roles guild) target_id id)
        else Js.Ok Null
    | Some EMOJI =>
        if Js.str_truthy target_id
        then Js.Ok (get_or (Guild.emojis guild) target_id id)
        else Js.Ok Null
    | Some ALL =>
        if Js.str_truthy target_id
        then Js.Throw (Js.TypeError_property_of_undefined "get")
        else Js.Ok Null
    | None =>
        if Js.str_truthy target_id
        then Js.Throw (Js.TypeError_property_of_null "toLowerCase")
        else Js.Ok Null
    end.
Proof.
  unfold GuildAuditLogsEntry.target_of.
  destruct fam as [[] |]; cbn zeta;
    destruct (Js.str_truthy (Raw.target_id data)); reflexivity.
Qed.

(** The target chain throws on a missing change list that has to be
    flattened, and on a target id without a family. *)
Lemma target_of_throws logs guild data changes :
  (exists err,
     GuildAuditLogsEntry.target_of logs guild data
       (GuildAuditLogs.targetType (Raw.action_type data)) changes
       = Js.Throw err) <->
  (changes = None /\
   (GuildAuditLogs.targetType (Raw.action_type data) = Some INVITE \/
    (GuildAuditLogs.targetType (Raw.action_type data) = Some WEBHOOK /\
     get (Logs.webhooks logs) (Raw.target_id data) = None) \/
    (GuildAuditLogs.targetType (Raw.action_type data) = Some INTEGRATION /\
     get (Logs.integrations logs) (Raw.target_id data) = None))) \/
  (GuildAuditLogs.targetType (Raw.action_type data) = None /\
   Js.str_truthy (Raw.target_id data) = true).
Proof.
  pose proof (targetType_cases (Raw.action_type data)) as Hfam.
  rewrite target_of_by_family. cbn zeta.
  revert Hfam. generalize (GuildAuditLogs.targetType (Raw.action_type data)).
  intros fam Hfam.
  assert (fam <> Some ALL /\ fam <> Some UNKNOWN) as [Hall Hunknown].
  { split; intros ->;
      repeat (apply elem_of_cons in Hfam as [? | Hfam]; [discriminate |]);
      by apply elem_of_nil in Hfam. }
  clear Hfam.
  destruct changes as [cs |];
    destruct (get (Logs.webhooks logs) (Raw.target_id data)) as [hook |];
    destruct (get (Logs.integrations logs) (Raw.target_id data)) as [int |];
    destruct (Js.str_truthy (Raw.target_id data));
    destruct fam as [[] |]; try done; cbn;
    try destruct (action_eqb _ _);
    (split; [intros [err Herr]; try discriminate; naive_solver
            | intros H; first [ by eexists | exfalso; naive_solver ]]).
Qed.

(** X3. The constructor throws in exactly these cases: the action is a [case]
    of the [extra] switch and the record has no [options]; the record has
    no change list and its target is an invite, a webhook missing from the
    batch or an integration missing from the batch; the code has no family
    and the record has a target id. In every other case it returns an
    entry. *)
Theorem constructor_throws_iff logs guild data :
  (exists err,
     GuildAuditLogsEntry.constructor logs guild data = Js.Throw err) <->
  (Raw.action_type data ∈ switch_cases /\ Raw.options data = None) \/
  (Raw.changes data = None /\
   (GuildAuditLogs.targetType (Raw.action_type data) = Some INVITE \/
    (GuildAuditLogs.targetType (Raw.action_type data) = Some WEBHOOK /\
     get (Logs.webhooks logs) (Raw.target_id data) = None) \/
    (GuildAuditLogs.targetType (Raw.action_type data) = Some INTEGRATION /\
     get (Logs.integrations logs) (Raw.target_id data) = None))) \/
  (GuildAuditLogs.targetType (Raw.action_type data) = None /\
   Js.str_truthy (Raw.target_id data) = true).
Proof.
  assert (GuildAuditLogsEntry.changes_of data = None <->
          Raw.changes data = None) as Hchanges.
  { unfold GuildAuditLogsEntry.changes_of. by destruct (Raw.changes data). }
  rewrite <- Hchanges, <- (extra_of_throws guild data),
    <- (target_of_throws logs guild data).
  unfold GuildAuditLogsEntry.constructor.
  destruct (GuildAuditLogsEntry.extra_of guild data) as [extra | e1]; cbn.
  - destruct (GuildAuditLogsEntry.target_of logs guild data _ _)
      as [target | e2]; cbn.
    + split; [by intros [? ?] | by intros [[? ?] | [? ?]]].
    + split; [intros _; right | intros _]; by eexists.
  - split; [intros _; left | intros _]; by eexists.
Qed.

Lemma constructor_throws_witness :
  exists err,
    GuildAuditLogsEntry.constructor Sample.logs Sample.guild
      (Sample.bare "1" Actions.MEMBER_DISCONNECT) = Js.Throw err.
Proof.
  apply constructor_throws_iff. left. split; [| reflexivity].
  by apply includes_elem_of.
Defined.

(** X4. For a channel, role or emoji code the target is read from the guild's
    collection of that family, [guild.channels], [guild.roles] or
    [guild.emojis]: the entity cached under the target id, [{id}] when
    there is none, and [null] when the record has no target id. *)
Theorem target_from_the_family_collection logs guild data t cache entry :
  GuildAuditLogs.targetType (Raw.action_type data) = Some t ->
  family_cache guild t = Some cache ->
  GuildAuditLogsEntry.constructor logs guild data = Js.Ok entry ->
  Entry.target entry =
    if Js.str_truthy (Raw.target_id data)
    then match get cache (Raw.target_id data) with
         | Some e => Cached e
         | None => Plain {[ "id" := Js.of_str (Raw.target_id data) ]}
         end
    else Null.
Proof.
  intros Hfam Hcache Hok.
  apply constructor_Ok_inv in Hok as (extra & target & _ & Htarget & ->).
  cbn. rewrite Hfam, target_of_by_family in Htarget. cbn zeta in Htarget.
  destruct t; try discriminate; cbn in Hcache; simplify_eq;
    by destruct (Js.str_truthy (Raw.target_id data)); simplify_eq.
Qed.

Lemma target_from_the_family_collection_witness :
  Entry.target
    (Entry.make (Some CHANNEL) CREATE (Some "CHANNEL_CREATE") None None None
                "1" ExtraNull (Cached Sample.channel_C1)) =
    Cached Sample.channel_C1.
Proof.
  exact (target_from_the_family_collection Sample.logs Sample.guild
           (Sample.with_target "C1" (Sample.bare "1" Actions.CHANNEL_CREATE))
           CHANNEL _ _ eq_refl eq_refl eq_refl).
Defined.

(** X5. A webhook or an integration that the batch carries under the target id
    is the target, whether or not the record has a change list. *)
Theorem target_from_the_batch logs guild data cached :
  (GuildAuditLogs.targetType (Raw.action_type data) = Some WEBHOOK /\
   get (Logs.webhooks logs) (Raw.target_id data) = Some cached) \/
  (GuildAuditLogs.targetType (Raw.action_type data) = Some INTEGRATION /\
   get (Logs.integrations logs) (Raw.target_id data) = Some cached) ->
  exists entry,
    GuildAuditLogsEntry.constructor logs guild data = Js.Ok entry /\
    Entry.target entry = Cached cached.
Proof.
  intros Hcase. unfold GuildAuditLogsEntry.constructor.
  rewrite extra_of_default; cycle 1.
  { destruct Hcase as [[Ht _] | [Ht _]];
      eapply family_not_switch_case; eauto. }
  rewrite target_of_by_family. cbn zeta.
  destruct Hcase as [[-> ->] | [-> ->]]; eexists; split; reflexivity.
Qed.

Lemma target_from_the_batch_witness :
  exists entry,
    GuildAuditLogsEntry.constructor
      (Logs.make {[ "W1" := new Class.Webhook ∅ None ]} ∅ Collection.empty)
      Sample.guild
      (Sample.with_target "W1" (Sample.bare "1" Actions.WEBHOOK_DELETE))
      = Js.Ok entry /\
    Entry.target entry = Cached (new Class.Webhook ∅ None).
Proof.
  apply target_from_the_batch. left. split; reflexivity.
Defined.

(** * The flattened changes *)






(** * The caches of a batch *)

Lemma collect_snoc class guild_arg ps p :
  collect class guild_arg (Some (ps ++ [p])%list) =
    <[Raw.payload_id p := new class (Raw.object p) guild_arg]>
      (collect class guild_arg (Some ps)).
Proof. unfold collect. by rewrite foldl_snoc. Qed.

(** X7. The webhooks and integrations of a batch are found by id: an id is
    bound to the entity made of the last payload that carries it, and to
    nothing when no payload does or the array is absent. *)
Theorem collect_lookup class guild_arg (payloads : option (list Raw.Payload))
    (k : string) :
  collect class guild_arg payloads !! k =
    (fun p => new class (Raw.object p) guild_arg) <$>
      last (filter (fun p => Raw.payload_id p = k) (default [] payloads)).
Proof.
  destruct payloads as [ps |]; [| reflexivity].
  change (default [] (Some ps)) with ps.
  induction ps as [| p ps IH] using rev_ind; [reflexivity |].
  rewrite collect_snoc, filter_app, filter_cons, filter_nil.
  destruct (decide (Raw.payload_id p = k)) as [<- | Hne].
  - by rewrite lookup_insert_eq, last_snoc.
  - by rewrite lookup_insert_ne, app_nil_r.
Qed.

(** * A batch with an entry that throws *)

Lemma for_entries_Throw logs guild items err :
  for_entries logs guild items = Js.Throw err <->
  exists before item after,
    items = (before ++ item :: after)%list /\
    Forall (fun i =>
              exists e,
                GuildAuditLogsEntry.constructor
                  (Logs.make (Logs.webhooks logs) (Logs.integrations logs)
                             Collection.empty) guild i = Js.Ok e)
           before /\
    GuildAuditLogsEntry.constructor
      (Logs.make (Logs.webhooks logs) (Logs.integrations logs)
                 Collection.empty) guild item = Js.Throw err.
Proof.
  revert logs. induction items as [| item items IH]; intros logs.
  - split; [done |]. intros (before & i & after & Heq & _).
    by destruct before.
  - destruct logs as [w i en]. cbn [for_entries Logs.webhooks Logs.integrations].
    rewrite (constructor_entries_irrelevant w i en Collection.empty).
    destruct (GuildAuditLogsEntry.constructor _ guild item) as [e | err'] eqn:He;
      cbn.
    + rewrite IH. cbn. split.
      * intros (before & it & after & -> & Hall & Hthrow).
        exists (item :: before), it, after. split; [done |].
        split; [| done]. constructor; [by exists e | done].
      * intros (before & it & after & Heq & Hall & Hthrow).
        destruct before as [| b before]; cbn in Heq; simplify_eq;
          [congruence |].
        apply Forall_cons in Hall as [_ Hall]. by exists before, it, after.
    + split.
      * intros [= ->]. exists [], item, items. by repeat split.
      * intros (before & it & after & Heq & Hall & Hthrow).
        destruct before as [| b before]; cbn in Heq; simplify_eq;
          [congruence |].
        apply Forall_cons in Hall as [[e He'] _]. congruence.
Qed.

(** X8. The batch constructor throws exactly when the constructor of some
    entry throws, and what it throws is the exception of the first such
    entry: one record that does not resolve loses the whole batch. *)
Theorem batch_throws_with_its_first_failing_entry guild data err :
  let guild' := (new_GuildAuditLogs guild data).1 in
  let logs :=
    Logs.make (collect Class.Webhook None (Raw.webhooks data))
              (collect Class.Integration (Some (Guild.id guild'))
                       (Raw.integrations data))
              Collection.empty in
  (new_GuildAuditLogs guild data).2 = Js.Throw err <->
  exists before item after,
    Raw.audit_log_entries data = (before ++ item :: after)%list /\
    Forall (fun i =>
              exists e, GuildAuditLogsEntry.constructor logs guild' i = Js.Ok e)
           before /\
    GuildAuditLogsEntry.constructor logs guild' item = Js.Throw err.
Proof.
  cbn zeta. unfold new_GuildAuditLogs. cbn [fst snd].
  by rewrite for_entries_Throw.
Qed.

(** * [Util.splitMessage] *)

Lemma length_append (s1 s2 : string) :
  String.length (s1 ++ s2) = (String.length s1 + String.length s2)%nat.
Proof.
  induction s1 as [| a s1 IH]; [reflexivity |].
  change (S (String.length (s1 ++ s2))
          = S (String.length s1 + String.length s2)).
  by rewrite IH.
Qed.

Lemma append_empty_r (s : string) : s ++ "" = s.
Proof.
  induction s as [| a s IH]; [reflexivity |].
  change (String a (s ++ "") = String a s). by rewrite IH.
Qed.

Lemma append_assoc (s1 s2 s3 : string) : (s1 ++ s2) ++ s3 = s1 ++ s2 ++ s3.
Proof.
  induction s1 as [| a s1 IH]; [reflexivity |].
  change (String a ((s1 ++ s2) ++ s3) = String a (s1 ++ s2 ++ s3)).
  by rewrite IH.
Qed.

Lemma length_zero (s : string) : String.length s = 0%nat -> s = "".
Proof. by destruct s. Qed.

Section Split_loop.

Variables (maxLength : Z) (char prepend append : string).

Local Abbreviation step := (Util.split_step maxLength char prepend append).

Lemma split_step_closed closed current chunk :
  exists more, (step (closed, current) chunk).1 = (closed ++ more)%list.
Proof.
  unfold Util.split_step. destruct (_ >? maxLength); cbn [fst].
  - eexists. reflexivity.
  - exists []. by rewrite app_nil_r.
Qed.

(** The loop only ever adds messages after the ones it has closed. *)
Lemma split_loop_closed closed current chunks :
  exists more,
    (foldl step (closed, current) chunks).1 = (closed ++ more)%list.
Proof.
  revert closed current.
  induction chunks as [| chunk chunks IH]; intros closed current.
  - exists []. cbn. by rewrite app_nil_r.
  - cbn [foldl].
    destruct (split_step_closed closed current chunk) as [m1 H1].
    destruct (step (closed, current) chunk) as [closed' current'].
    cbn [fst] in H1. subst closed'.
    destruct (IH (closed ++ m1)%list current') as [m2 ->].
    exists (m1 ++ m2)%list. by rewrite app_assoc.
Qed.

Local Abbreviation bound :=
  (Z.of_nat (String.length prepend) + Z.max 0 maxLength).

Lemma split_step_bound closed current chunk :
  (String.length char <= 1)%nat ->
  Z.of_nat (String.length chunk) <= maxLength ->
  Forall (fun m => Z.of_nat (String.length m)
                   <= bound + Z.of_nat (String.length append)) closed ->
  Z.of_nat (String.length current) <= bound ->
  Forall (fun m => Z.of_nat (String.length m)
                   <= bound + Z.of_nat (String.length append))
         (step (closed, current) chunk).1 /\
  Z.of_nat (String.length (step (closed, current) chunk).2) <= bound.
Proof.
  intros Hchar Hchunk Hclosed Hcurrent. unfold Util.split_step.
  destruct (_ >? maxLength) eqn:Hfull; cbn [fst snd].
  - split.
    + apply Forall_app. split; [done |]. constructor; [| constructor].
      rewrite length_append. lia.
    + rewrite String.eqb_refl, andb_false_r, !length_append.
      cbn [String.length]. lia.
  - split; [done |]. rewrite Z.gtb_ltb in Hfull. apply Z.ltb_ge in Hfull.
    rewrite !length_append.
    destruct (_ && _); cbn [String.length]; lia.
Qed.

Lemma split_loop_bound chunks closed current :
  (String.length char <= 1)%nat ->
  Forall (fun chunk => Z.of_nat (String.length chunk) <= maxLength) chunks ->
  Forall (fun m => Z.of_nat (String.length m)
                   <= bound + Z.of_nat (String.length append)) closed ->
  Z.of_nat (String.length current) <= bound ->
  Forall (fun m => Z.of_nat (String.length m)
                   <= bound + Z.of_nat (String.length append))
         (foldl step (closed, current) chunks).1 /\
  Z.of_nat (String.length (foldl step (closed, current) chunks).2) <= bound.
Proof.
  intros Hchar Hchunks. revert closed current.
  induction Hchunks as [| chunk chunks Hchunk _ IH]; intros closed current Hcl Hcu.
  - by split.
  - cbn [foldl].
    destruct (split_step_bound closed current chunk Hchar Hchunk Hcl Hcu)
      as [Hcl' Hcu'].
    destruct (step (closed, current) chunk) as [closed' current'].
    by apply IH.
Qed.

End Split_loop.

Lemma no_chunk_too_long (maxLength : Z) (chunks : list string) :
  existsb (fun chunk => Z.of_nat (String.length chunk) >? maxLength) chunks
    = false ->
  Forall (fun chunk => Z.of_nat (String.length chunk) <= maxLength) chunks.
Proof.
  intros H. apply Forall_forall. intros chunk Hin.
  destruct (Z.of_nat (String.length chunk) >? maxLength) eqn:Hlong.
  - assert (existsb (fun chunk => Z.of_nat (String.length chunk) >? maxLength)
                    chunks = true) as Hex
      by (apply existsb_exists; exists chunk; by rewrite <- list_elem_of_In).
    congruence.
  - rewrite Z.gtb_ltb in Hlong. by apply Z.ltb_ge in Hlong.
Qed.

(** What [splitMessage] returns once the text is too long to go as it is
    and no chunk is. *)
Lemma splitMessage_Messages text o messages :
  Util.splitMessage text (Some o) = Util.Ok (Util.Messages messages) ->
  let maxLength := default 1950 (Util.maxLength o) in
  let char := default (String "010"%char "") (Util.char o) in
  let prepend := default "" (Util.prepend o) in
  let append := default "" (Util.append o) in
  let final :=
    foldl (Util.split_step maxLength char prepend append) ([], "")
          (Util.split char text) in
  maxLength < Z.of_nat (String.length text) /\
  Forall (fun chunk => Z.of_nat (String.length chunk) <= maxLength)
         (Util.split char text) /\
  messages = (final.1 ++ [final.2])%list.
Proof.
  unfold Util.splitMessage. cbn zeta.
  destruct (_ <=? _) eqn:Hshort; [discriminate |].
  destruct (existsb _ _) eqn:Hlong; [discriminate |].
  destruct (foldl _ _ _) as [closed current]. intros [= <-].
  split; [by apply Z.leb_gt |]. split; [by apply no_chunk_too_long | done].
Qed.

(** X9. With a separator of at most one code unit, no message returned by
    [splitMessage] is longer than [prepend], [maxLength] counted as 0 when
    it is negative, and [append] together. So when [maxLength] is not
    negative no message is longer than [prepend], [maxLength] and [append]
    together, and none is longer than [maxLength] with the default
    [prepend] and [append]. *)
Theorem splitMessage_message_lengths text o messages :
  Util.splitMessage text (Some o) = Util.Ok (Util.Messages messages) ->
  (String.length (default (String "010"%char "") (Util.char o)) <= 1)%nat ->
  Forall (fun m =>
            Z.of_nat (String.length m) <=
              Z.of_nat (String.length (default "" (Util.prepend o)))
              + Z.max 0 (default 1950 (Util.maxLength o))
              + Z.of_nat (String.length (default "" (Util.append o))))
         messages /\
  (0 <= default 1950 (Util.maxLength o) ->
   Forall (fun m =>
             Z.of_nat (String.length m) <=
               Z.of_nat (String.length (default "" (Util.prepend o)))
               + default 1950 (Util.maxLength o)
               + Z.of_nat (String.length (default "" (Util.append o))))
          messages) /\
  (0 <= default 1950 (Util.maxLength o) ->
   default "" (Util.prepend o) = "" -> default "" (Util.append o) = "" ->
   Forall (fun m =>
             Z.of_nat (String.length m) <= default 1950 (Util.maxLength o))
          messages).
Proof.
  intros Hok Hchar.
  apply splitMessage_Messages in Hok as (_ & Hchunks & ->).
  destruct (split_loop_bound
              (default 1950 (Util.maxLength o))
              (default (String "010"%char "") (Util.char o))
              (default "" (Util.prepend o)) (default "" (Util.append o))
              _ [] "" Hchar Hchunks) as [Hclosed Hcurrent];
    [constructor | cbn; lia |].
  assert (Forall (fun m =>
            Z.of_nat (String.length m) <=
              Z.of_nat (String.length (default "" (Util.prepend o)))
              + Z.max 0 (default 1950 (Util.maxLength o))
              + Z.of_nat (String.length (default "" (Util.append o))))
            ((foldl (Util.split_step (default 1950 (Util.maxLength o))
                       (default (String "010"%char "") (Util.char o))
                       (default "" (Util.prepend o))
                       (default "" (Util.append o))) ([], "")
                    (Util.split (default (String "010"%char "") (Util.char o))
                                text)).1
             ++ [(foldl (Util.split_step (default 1950 (Util.maxLength o))
                       (default (String "010"%char "") (Util.char o))
                       (default "" (Util.prepend o))
                       (default "" (Util.append o))) ([], "")
                    (Util.split (default (String "010"%char "") (Util.char o))
                                text)).2])%list) as Hall.
  { apply Forall_app. split; [exact Hclosed |].
    constructor; [lia | constructor]. }
  split; [exact Hall |]. split.
  - intros Hmax. eapply Forall_impl; [exact Hall |]. cbn beta. intros m Hm. lia.
  - intros Hmax Hprepend Happend. eapply Forall_impl; [exact Hall |].
    cbn beta. intros m Hm. rewrite Hprepend, Happend in Hm.
    cbn [String.length] in Hm. lia.
Qed.

Lemma splitMessage_message_lengths_witness :
  Forall (fun m => Z.of_nat (String.length m) <= 4) [ "ab,c"; "d"; "efg" ].
Proof.
  destruct (splitMessage_message_lengths "ab,c,d,efg"
              (Util.mkSplitOptions (Some 4) (Some ",") None None)
              [ "ab,c"; "d"; "efg" ] eq_refl (le_n 1)) as (_ & _ & Hmax).
  apply Hmax; [cbn; lia | reflexivity | reflexivity].
Defined.

(** X10. When the text is split and its first chunk is as long as [maxLength],
    the first message returned is [append] alone: the empty string with
    the default options. *)
Theorem splitMessage_leading_message text o messages first rest :
  Util.splitMessage text (Some o) = Util.Ok (Util.Messages messages) ->
  Util.split (default (String "010"%char "") (Util.char o)) text
    = first :: rest ->
  Z.of_nat (String.length first) = default 1950 (Util.maxLength o) ->
  head messages = Some (default "" (Util.append o)).
Proof.
  intros Hok Hsplit Hfirst.
  apply splitMessage_Messages in Hok as (_ & _ & ->).
  rewrite Hsplit. cbn [foldl]. unfold Util.split_step at 2.
  cbn [String.length]. rewrite Hfirst.
  replace (Z.of_nat 0 + default 1950 (Util.maxLength o) + 1
           >? default 1950 (Util.maxLength o)) with true
    by (symmetry; rewrite Z.gtb_ltb; apply Z.ltb_lt; lia).
  cbn [app].
  match goal with
  | |- context [ foldl ?f (?closed, ?current) rest ] =>
      destruct (split_loop_closed (default 1950 (Util.maxLength o))
                  (default (String "010"%char "") (Util.char o))
                  (default "" (Util.prepend o))
                  (default "" (Util.append o)) closed current rest)
        as [more ->]
  end.
  reflexivity.
Qed.

Lemma splitMessage_leading_message_witness :
  head [ ""; "abc"; "d" ] = Some "".
Proof.
  exact (splitMessage_leading_message "abc,d"
           (Util.mkSplitOptions (Some 3) (Some ",") None None)
           [ ""; "abc"; "d" ] "abc" [ "d" ] eq_refl eq_refl eq_refl).
Defined.

(** ** Joining the messages back *)

Lemma prefix_empty (s : string) : String.prefix "" s = true.
Proof. by destruct s. Qed.

Lemma split_go_not_nil sep skip current s :
  Util.split_go sep skip current s <> [].
Proof.
  revert skip current. induction s as [| b s IH]; intros skip current; [done |].
  cbn [Util.split_go]. destruct skip; [| apply IH].
  destruct (String.prefix sep (String b s)); [done | apply IH].
Qed.

Lemma concat_cons sep (x : string) (l : list string) :
  l <> [] -> String.concat sep (x :: l) = x ++ sep ++ String.concat sep l.
Proof. by destruct l. Qed.

(** Splitting at a code unit and joining with it gives the string back. *)
Lemma concat_split_go (a : ascii) current s :
  String.concat (String a "") (Util.split_go (String a "") 0 current s)
    = current ++ s.
Proof.
  revert current. induction s as [| b s IH]; intros current.
  - cbn. by rewrite append_empty_r.
  - cbn [Util.split_go String.prefix String.length Nat.sub].
    destruct (ascii_dec a b) as [<- | Hne].
    + rewrite prefix_empty, concat_cons by apply split_go_not_nil.
      by rewrite IH.
    + rewrite IH, append_assoc. reflexivity.
Qed.

Section Join.

Variables (maxLength : Z) (a : ascii).

Local Abbreviation sep := (String a "").
Local Abbreviation step := (Util.split_step maxLength sep "" "").
Local Abbreviation nonempty := (filter (fun m : string => m <> "")).

(** Two lists of messages that join to the same string whatever follows. *)
Local Abbreviation same_join l1 l2 :=
  (forall rest : list string,
     String.concat sep (l1 ++ rest)%list = String.concat sep (l2 ++ rest)%list).

Lemma same_join_app l1 l2 more :
  same_join l1 l2 -> same_join (l1 ++ more)%list (l2 ++ more)%list.
Proof. intros H rest. rewrite <- !app_assoc. apply H. Qed.

Lemma same_join_merge l (x y : string) :
  same_join (l ++ [(x ++ sep ++ y)%string])%list (l ++ [x; y])%list.
Proof.
  intros rest. rewrite <- !app_assoc. induction l as [| z l IH].
  - cbn [app]. rewrite (concat_cons _ x) by done.
    destruct rest as [| r rest]; [reflexivity |].
    rewrite !concat_cons by done. by rewrite !append_assoc.
  - cbn [app] in *. rewrite !concat_cons; [by rewrite IH | |];
      by destruct l.
Qed.

Lemma split_step_join closed current chunk :
  chunk <> "" ->
  let state := step (closed, current) chunk in
  same_join (nonempty (state.1 ++ [state.2])%list)
            (nonempty (closed ++ [current])%list ++ [chunk])%list.
Proof.
  intros Hchunk. unfold Util.split_step. cbn zeta.
  destruct (_ >? maxLength); cbn [fst snd].
  - rewrite append_empty_r. cbn [String.length]. cbn.
    rewrite filter_app, (filter_cons _ chunk), decide_True, filter_nil by done.
    by intros rest.
  - destruct current as [| c current].
    + cbn. rewrite !filter_app, !filter_cons, !filter_nil.
      rewrite decide_True, decide_False by (done || by intros []).
      rewrite app_nil_r. by intros rest.
    + cbn [String.length Nat.ltb Nat.leb andb String.eqb negb].
      rewrite !filter_app, !filter_cons, !filter_nil.
      rewrite !decide_True by done. rewrite <- (app_assoc _ [_] [chunk]).
      apply same_join_merge.
Qed.

Lemma split_loop_join chunks closed current :
  Forall (fun chunk => chunk <> "") chunks ->
  let state := foldl step (closed, current) chunks in
  same_join (nonempty (state.1 ++ [state.2])%list)
            (nonempty (closed ++ [current])%list ++ chunks)%list.
Proof.
  intros Hchunks. revert closed current.
  induction Hchunks as [| chunk chunks Hchunk _ IH]; intros closed current.
  - cbn. rewrite app_nil_r. by intros rest.
  - cbn [foldl]. cbn zeta.
    pose proof (split_step_join closed current chunk Hchunk) as Hstep.
    cbn zeta in Hstep.
    destruct (step (closed, current) chunk) as [closed' current'].
    cbn [fst snd] in Hstep. intros rest.
    rewrite (IH closed' current' rest).
    rewrite (same_join_app _ _ chunks Hstep rest).
    by rewrite <- (app_assoc _ [chunk] chunks).
Qed.

End Join.

(** X11. When the separator is one code unit, [prepend] and [append] are empty
    and the text has no empty chunk, the messages other than an empty
    leading one, joined with the separator, give the text back. *)
Theorem splitMessage_joins_back text o messages (a : ascii) :
  Util.splitMessage text (Some o) = Util.Ok (Util.Messages messages) ->
  default (String "010"%char "") (Util.char o) = String a "" ->
  default "" (Util.prepend o) = "" ->
  default "" (Util.append o) = "" ->
  Forall (fun chunk => chunk <> "") (Util.split (String a "") text) ->
  String.concat (String a "") (filter (fun m => m <> "") messages) = text.
Proof.
  intros Hok Hchar Hprepend Happend Hchunks.
  apply splitMessage_Messages in Hok as (_ & _ & ->).
  rewrite Hchar, Hprepend, Happend.
  pose proof (split_loop_join (default 1950 (Util.maxLength o)) a _ [] ""
                Hchunks []) as Hjoin.
  cbn zeta in Hjoin. rewrite !app_nil_r in Hjoin. rewrite Hjoin.
  cbn [app]. rewrite filter_cons, decide_False, filter_nil by (by intros []).
  cbn [app]. unfold Util.split. cbn [String.eqb]. apply concat_split_go.
Qed.

Lemma splitMessage_joins_back_witness :
  String.concat "," (filter (fun m => m <> "") [ ""; "abc"; "d" ]) = "abc,d".
Proof.
  apply (splitMessage_joins_back "abc,d"
           (Util.mkSplitOptions (Some 3) (Some ",") None None)
           [ ""; "abc"; "d" ] ","%char eq_refl eq_refl eq_refl eq_refl).
  repeat constructor; discriminate.
Defined.

(** * [Util.arraysEqual] *)

Section ArraysEqual.

Context {A : Type} `{EqDecision A}.
Implicit Types (a b c : list A).

Lemma forallb_elem_of a b :
  forallb (fun e => bool_decide (e ∈ b)) a = true <-> forall x, x ∈ a -> x ∈ b.
Proof.
  rewrite forallb_forall. split.
  - intros H1 x Hx. apply list_elem_of_In in Hx.
    by apply H1, bool_decide_eq_true in Hx.
  - intros H1 x Hx. apply bool_decide_eq_true, H1. by apply list_elem_of_In.
Qed.

Lemma arraysEqual_iff a b :
  Util.arraysEqual a b = true <->
  length a = length b /\ forall x, x ∈ a <-> x ∈ b.
Proof.
  unfold Util.arraysEqual.
  destruct (length a =? length b)%nat eqn:Hlen; cbn.
  - apply Nat.eqb_eq in Hlen.
    rewrite andb_true_iff, !forallb_elem_of. naive_solver.
  - apply Nat.eqb_neq in Hlen. naive_solver.
Qed.

(** X12. [arraysEqual] holds exactly for two arrays of the same length with the
    same elements, however often each occurs: it is reflexive, which is
    what the shortcut for one and the same array returns, symmetric and
    transitive, and it holds for any two arrangements of the same
    elements. *)
Theorem arraysEqual_same_length_same_elements a b :
  (Util.arraysEqual a b = true <->
   length a = length b /\ forall x, x ∈ a <-> x ∈ b) /\
  Util.arraysEqual a a = true /\
  Util.arraysEqual a b = Util.arraysEqual b a /\
  (a ≡ₚ b -> Util.arraysEqual a b = true) /\
  (forall c, Util.arraysEqual a b = true -> Util.arraysEqual b c = true ->
             Util.arraysEqual a c = true).
Proof.
  split; [apply arraysEqual_iff |]. split; [by apply arraysEqual_iff |].
  split; [| split].
  - destruct (Util.arraysEqual a b) eqn:Hab, (Util.arraysEqual b a) eqn:Hba;
      try done.
    + apply arraysEqual_iff in Hab. apply not_true_iff_false in Hba.
      exfalso. apply Hba, arraysEqual_iff. naive_solver.
    + apply arraysEqual_iff in Hba. apply not_true_iff_false in Hab.
      exfalso. apply Hab, arraysEqual_iff. naive_solver.
  - intros Hperm. apply arraysEqual_iff. split; [by apply Permutation_length |].
    intros x. by rewrite Hperm.
  - intros c Hab Hbc.
    apply arraysEqual_iff in Hab as [? Hab], Hbc as [? Hbc].
    apply arraysEqual_iff. split; [congruence |]. intros x. by rewrite Hab.
Qed.

(** X13. [arraysEqual] does not count occurrences: for two distinct values [x]
    and [y] it holds of [[x, x, y]] and [[x, y, y]], which are not
    arrangements of the same elements. *)
Theorem arraysEqual_ignores_multiplicity (x y : A) :
  x <> y ->
  Util.arraysEqual [x; x; y] [x; y; y] = true /\ ~ [x; x; y] ≡ₚ [x; y; y].
Proof.
  intros Hxy. split.
  - apply arraysEqual_iff. split; [done |].
    intros z. rewrite !elem_of_cons, !elem_of_nil. tauto.
  - intros Hperm. apply Permutation_cons_inv in Hperm.
    assert (x ∈ [y; y]) as Hin by (rewrite <- Hperm; left).
    rewrite !elem_of_cons, elem_of_nil in Hin. tauto.
Qed.

End ArraysEqual.

Lemma arraysEqual_ignores_multiplicity_witness :
  Util.arraysEqual [1; 1; 2] [1; 2; 2] = true /\ ~ [1; 1; 2] ≡ₚ [1; 2; 2].
Proof. apply arraysEqual_ignores_multiplicity. discriminate. Defined.

(** * [Util.moveElementInArray] *)

Section MoveElement.

Context {A : Type} `{EqDecision A} (undefined : A).
Implicit Types (array : list A) (element : A).

Lemma indexOf_bounds array element :
  -1 <= Util.indexOf array element < Z.of_nat (length array).
Proof.
  induction array as [| x array IH]; cbn [Util.indexOf length]; [lia |].
  destruct (decide (x = element)); [lia |].
  destruct (Util.indexOf array element <? 0) eqn:Hneg; lia.
Qed.

Lemma indexOf_not_elem_of array element :
  element ∉ array -> Util.indexOf array element = -1.
Proof.
  induction array as [| x array IH]; intros Hout; [reflexivity |].
  cbn [Util.indexOf]. apply not_elem_of_cons in Hout as [Hne Hout].
  rewrite decide_False by done. by rewrite IH.
Qed.



(** What the two [splice] calls do when the new index is in range: the
    element at [k], the index found or the last position when nothing was
    found, is taken out and put back at the new index. *)
Lemma move_in_range array element newIndex offset :
  let target :=
    (if default false offset then Util.indexOf array element else 0)
    + newIndex in
  0 <= target < Z.of_nat (length array) ->
  exists k moved,
    k = (if decide (Util.indexOf array element = -1)
         then (length array - 1)%nat
         else Z.to_nat (Util.indexOf array element)) /\
    array !! k = Some moved /\
    (Util.moveElementInArray undefined array element newIndex offset).1 =
      (take (Z.to_nat target) (delete k array)
       ++ moved :: drop (Z.to_nat target) (delete k array))%list.
Proof.
  cbn zeta. intros Hrange.
  pose proof (indexOf_bounds array element) as Hindex.
  set (k := if decide (Util.indexOf array element = -1)
            then (length array - 1)%nat
            else Z.to_nat (Util.indexOf array element)).
  assert (k < length array)%nat as Hk by (unfold k; case_decide; lia).
  destruct (lookup_lt_is_Some_2 array k Hk) as [moved Hmoved].
  exists k, moved. split; [reflexivity |]. split; [exact Hmoved |].
  unfold Util.moveElementInArray. cbn [fst].
  replace (-1 <? _) with true by (symmetry; apply Z.ltb_lt; lia).
  replace (_ <? Z.of_nat (length array)) with true
    by (symmetry; apply Z.ltb_lt; lia).
  cbn [andb]. unfold Util.splice_delete.
  assert (Util.relative_start (length array) (Util.indexOf array element) = k)
    as ->.
  { unfold Util.relative_start, k. case_decide as Hfound.
    - rewrite Hfound. cbn. lia.
    - replace (Util.indexOf array element <? 0) with false
        by (symmetry; apply Z.ltb_ge; lia).
      lia. }
  rewrite (drop_S _ _ _ Hmoved). cbn [take head default from_option].
  unfold Util.splice_insert. rewrite <- delete_take_drop.
  assert (Util.relative_start (length (delete k array))
            ((if default false offset then Util.indexOf array element else 0)
             + newIndex)
          = Z.to_nat ((if default false offset
                       then Util.indexOf array element else 0) + newIndex))
    as ->; [| reflexivity].
  unfold Util.relative_start.
  replace (_ <? 0) with false by (symmetry; apply Z.ltb_ge; lia).
  rewrite length_delete by by eexists. lia.
Qed.

(** X14. Whatever the arguments, the array is left with the same elements,
    each as often as before, and so with the same length. *)
Theorem moveElementInArray_permutes array element newIndex offset :
  (Util.moveElementInArray undefined array element newIndex offset).1
    ≡ₚ array.
Proof.
  destruct (decide (0 <= (if default false offset
                          then Util.indexOf array element else 0) + newIndex
                    < Z.of_nat (length array))) as [Hrange | Hout].
  - destruct (move_in_range array element newIndex offset Hrange)
      as (k & moved & _ & Hmoved & ->).
    rewrite <- Permutation_middle, take_drop.
    rewrite delete_take_drop, Permutation_middle.
    by rewrite (take_drop_middle _ _ _ Hmoved).
  - unfold Util.moveElementInArray. cbn [fst].
    destruct (-1 <? _) eqn:H1; [| done].
    destruct (_ <? Z.of_nat (length array)) eqn:H2; [| done].
    apply Z.ltb_lt in H1, H2. lia.
Qed.


(** X16. Moving an element that is not in the array to an index in range moves
    the last element of the array there instead, and returns -1. *)
Theorem moveElementInArray_absent array element newIndex offset :
  element ∉ array ->
  let target := (if default false offset then -1 else 0) + newIndex in
  0 <= target < Z.of_nat (length array) ->
  let moved := Util.moveElementInArray undefined array element newIndex offset in
  moved.2 = -1 /\
  exists front final,
    array = (front ++ [final])%list /\
    moved.1 = (take (Z.to_nat target) front
               ++ final :: drop (Z.to_nat target) front)%list.
Proof.
  cbn zeta. intros Hout Hrange.
  pose proof (indexOf_not_elem_of array element Hout) as Hindex.
  rewrite <- Hindex in Hrange.
  destruct (move_in_range array element newIndex offset Hrange)
    as (k & final & -> & Hfinal & Hmoved).
  rewrite decide_True in * by done. rewrite Hindex in *.
  assert (array = (delete (length array - 1)%nat array ++ [final])%list)
    as Harray.
  { rewrite delete_take_drop.
    replace (S (length array - 1)) with (length array) by lia.
    rewrite drop_all, app_nil_r.
    rewrite <- (take_drop_middle _ _ _ Hfinal) at 1.
    replace (S (length array - 1)) with (length array) by lia.
    by rewrite drop_all. }
  split; [| by exists (delete (length array - 1)%nat array), final].
  change ((Util.moveElementInArray undefined array element newIndex offset).2)
    with (Util.indexOf
            (Util.moveElementInArray undefined array element newIndex offset).1
            element).
  rewrite Hmoved. apply indexOf_not_elem_of. intros Hin. apply Hout.
  rewrite Harray.
  rewrite <- (take_drop (Z.to_nat ((if default false offset then -1 else 0)
                                   + newIndex))
                        (delete (length array - 1)%nat array)) at 1.
  rewrite !elem_of_app, elem_of_cons in Hin.
  rewrite !elem_of_app, elem_of_cons, elem_of_nil. tauto.
Qed.

End MoveElement.


Lemma moveElementInArray_absent_witness :
  (Util.moveElementInArray 0%nat [1; 2; 3; 4]%nat 9%nat 1 None).2 = -1.
Proof.
  apply (moveElementInArray_absent 0%nat [1; 2; 3; 4]%nat 9%nat 1 None).
  - apply (bool_decide_unpack _). by vm_compute.
  - cbn. lia.
Defined.

(** * [Util.makeError] and [Util.makePlainError] *)

(** X17. An error made from an info object gives the same name and stack back,
    and the same message except that a message left out comes back as the
    empty string; an info object made from an error gives the error back
    as it was. *)
Theorem makeError_makePlainError (obj : Util.ErrorInfo) (err : Util.ErrorObject) :
  Util.makePlainError (Util.makeError obj) =
    Util.mkErrorInfo (Util.info_name obj)
                     (Some (default "" (Util.info_message obj)))
                     (Util.info_stack obj) /\
  (Util.makePlainError (Util.makeError obj) = obj <->
   is_Some (Util.info_message obj)) /\
  Util.makeError (Util.makePlainError err) = err.
Proof.
  destruct obj as [name [message |] stack], err as [ename emessage estack];
    cbn; (split; [reflexivity | split; [| reflexivity]]).
  - split; [by eexists | done].
  - split; [discriminate | by intros [? ?]].
Qed.
